(** * graphrag-in-construction: the knowledge-graph text parser and the
      retrieval log store

    A shallow embedding of [insert_custom_kg.py] ([parse_kg_from_txt],
    [validate_kg_data]) and of [retrieval_logger.py] ([RetrievalLogger]),
    with the properties of the specification proved over it.

    Text is modelled as [string]: a sequence of characters whose code points
    lie in 0..255, the Latin-1 part of Python's [str].  On that range Python's
    [\d] is [0-9] and [\s], like [str.strip], is the set 9..13, 28..32, 133,
    160. *)

From Stdlib Require Import ZArith QArith Ascii String List Bool Lia DecimalString.
From Stdlib Require Import DecimalZ DecimalPos.
From Stdlib Require Import Floats.SpecFloat.
From stdpp Require Import base gmap sets list strings sorting.

Local Open Scope nat_scope.
Set Warnings "-clear-no-such-hyp,-register-all".

(** * [insert_custom_kg.py] *)

(** ** Strings as Python uses them *)

Module Str.

Definition code (c : ascii) : N := N_of_ascii c.

(** [str.isspace] on one character, which is also [\s] of [re]. *)
Definition is_space (c : ascii) : bool :=
  let n := code c in
  ((9 <=? n) && (n <=? 13) || (28 <=? n) && (n <=? 32)
   || (n =? 133) || (n =? 160))%N.

(** [\d] of [re]: a decimal digit. *)
Definition is_digit (c : ascii) : bool :=
  let n := code c in ((48 <=? n) && (n <=? 57))%N.

Fixpoint lstrip (s : string) : string :=
  match s with
  | String c s' => if is_space c then lstrip s' else s
  | EmptyString => EmptyString
  end.

(** [rstrip] keeps a character when it, or something after it, is not
    white space. *)
Fixpoint rstrip (s : string) : string :=
  match s with
  | String c s' =>
      match rstrip s' with
      | EmptyString => if is_space c then EmptyString else String c EmptyString
      | t => String c t
      end
  | EmptyString => EmptyString
  end.

(** [s.strip()] *)
Definition strip (s : string) : string := rstrip (lstrip s).

(** [s[a:b]] for [0 <= a], [0 <= b]: clamped to the string, empty when
    [b <= a]. *)
Definition slice (s : string) (a b : nat) : string :=
  String.substring a (b - a) s.

(** [s[:n]] *)
Definition take (n : nat) (s : string) : string := String.substring 0 n s.

(** [s[n:]] *)
Fixpoint drop (n : nat) (s : string) : string :=
  match n, s with
  | S n', String _ s' => drop n' s'
  | _, _ => s
  end.

(** [s.startswith(p)], returning what follows the prefix. *)
Fixpoint strip_prefix (p s : string) : option string :=
  match p, s with
  | EmptyString, _ => Some s
  | String a p', String b s' =>
      if Ascii.eqb a b then strip_prefix p' s' else None
  | String _ _, EmptyString => None
  end.

Fixpoint forallb (f : ascii -> bool) (s : string) : bool :=
  match s with
  | String c s' => f c && forallb f s'
  | EmptyString => true
  end.

(** [p in s] *)
Fixpoint contains (p s : string) : bool :=
  match strip_prefix p s with
  | Some _ => true
  | None => match s with
            | String _ s' => contains p s'
            | EmptyString => false
            end
  end.

(** The value of a string of decimal digits, as [int(s)] reads it.  The
    limit that the interpreter puts on the number of digits is left out. *)
Definition digit_value (c : ascii) : Z := Z.of_N (code c) - 48.

Fixpoint int_acc (acc : Z) (s : string) : Z :=
  match s with
  | String c s' => int_acc (10 * acc + digit_value c) s'
  | EmptyString => acc
  end.

Definition int (s : string) : Z := int_acc 0 s.

End Str.

(** ** The part of Python's [re] that the parser uses

    A backtracking matcher in continuation-passing style: alternatives are
    tried in the order the [re] engine tries them (a greedy repetition the
    longest first, a lazy one the shortest first), and the first complete
    match wins. *)

Module re.

(** Character classes. *)
Inductive cclass :=
| c_space                 (* \s *)
| c_digit                 (* \d *)
| c_not (c : ascii)       (* [^c] *)
| c_dot.                  (* .  *)

Inductive regex :=
| Lit (s : string)                              (* literal text *)
| Rep (k : cclass) (min : nat) (greedy : bool)  (* k*, k+, k*? *)
| Cat (r1 r2 : regex)
| Alt (r1 r2 : regex)                           (* r1|r2 *)
| Group (n : nat) (r : regex)                   (* n-th capturing (...) *)
| Lookahead (r : regex)                         (* (?=r) *)
| Dollar.                                       (* $ *)

Record flags := { MULTILINE : bool; DOTALL : bool }.

(** No flag, [re.MULTILINE] alone and [re.DOTALL] alone. *)
Definition no_flags := {| MULTILINE := false; DOTALL := false |}.
Definition M := {| MULTILINE := true; DOTALL := false |}.
Definition S_ := {| MULTILINE := false; DOTALL := true |}.

Definition newline : ascii := "010"%char.

Definition class_match (fl : flags) (k : cclass) (c : ascii) : bool :=
  match k with
  | c_space => Str.is_space c
  | c_digit => Str.is_digit c
  | c_not x => negb (Ascii.eqb c x)
  | c_dot => DOTALL fl || negb (Ascii.eqb c newline)
  end.

Definition captures := list (nat * string).

(** [m.group(n)]; the patterns below have no optional group, so a missing
    group only arises for a number that the pattern does not have. *)
Fixpoint group (cs : captures) (n : nat) : string :=
  match cs with
  | (i, s) :: cs' => if Nat.eqb i n then s else group cs' n
  | [] => EmptyString
  end.

(** [$]: at the end of the text, or before its final newline; with
    MULTILINE before any newline. *)
Definition at_dollar (fl : flags) (s : string) : bool :=
  match s with
  | EmptyString => true
  | String c s' =>
      Ascii.eqb c newline &&
      (MULTILINE fl || match s' with EmptyString => true | _ => false end)
  end.

Section Exec.
Context {A : Type}.
Variable fl : flags.

(** [k{min,}] greedy: take a character when possible, and only when the
    rest fails with it stop here. *)
Fixpoint rep_greedy (k : cclass) (min : nat) (s : string)
    (kont : string -> option A) : option A :=
  let stop := match min with 0 => kont s | _ => None end in
  match s with
  | String c s' =>
      if class_match fl k c then
        match rep_greedy k (pred min) s' kont with
        | Some x => Some x
        | None => stop
        end
      else stop
  | EmptyString => stop
  end.

(** [k{min,}?] lazy: stop as soon as the rest succeeds. *)
Fixpoint rep_lazy (k : cclass) (min : nat) (s : string)
    (kont : string -> option A) : option A :=
  let more := match s with
              | String c s' =>
                  if class_match fl k c
                  then rep_lazy k (pred min) s' kont else None
              | EmptyString => None
              end in
  match min with
  | 0 => match kont s with Some x => Some x | None => more end
  | _ => more
  end.

End Exec.

(** [exec fl r s cs kont]: match [r] at the head of [s] and hand what is
    left of the text, with the groups, to [kont]; when [kont] fails the
    next alternative of [r] is tried. *)
Fixpoint exec {A : Type} (fl : flags) (r : regex) (s : string)
    (cs : captures) (kont : string -> captures -> option A) : option A :=
  match r with
  | Lit p =>
      match Str.strip_prefix p s with
      | Some s' => kont s' cs
      | None => None
      end
  | Rep k min true => rep_greedy fl k min s (fun s' => kont s' cs)
  | Rep k min false => rep_lazy fl k min s (fun s' => kont s' cs)
  | Cat r1 r2 => exec fl r1 s cs (fun s' cs' => exec fl r2 s' cs' kont)
  | Alt r1 r2 =>
      match exec fl r1 s cs kont with
      | Some x => Some x
      | None => exec fl r2 s cs kont
      end
  | Group n r1 =>
      exec fl r1 s cs (fun s' cs' =>
        kont s' ((n, Str.take (String.length s - String.length s') s) :: cs'))
  | Lookahead r1 =>
      match exec fl r1 s cs (fun _ cs' => Some cs') with
      | Some cs' => kont s cs'
      | None => None
      end
  | Dollar => if at_dollar fl s then kont s cs else None
  end.

(** A match object: [m.start()], [m.end()] and the groups. *)
Record Match := { m_start : nat; m_end : nat; m_groups : captures }.

(** The match of [r] that starts exactly at the head of [s], which is at
    position [pos] of the whole text. *)
Definition match_here (fl : flags) (r : regex) (s : string) (pos : nat)
    : option Match :=
  exec fl r s [] (fun s' cs =>
    Some {| m_start := pos;
            m_end := pos + (String.length s - String.length s');
            m_groups := cs |}).

(** [re.search]: the leftmost start position that has a match. *)
Fixpoint search_from (fl : flags) (r : regex) (s : string) (pos : nat)
    : option Match :=
  match match_here fl r s pos with
  | Some m => Some m
  | None =>
      match s with
      | String _ s' => search_from fl r s' (S pos)
      | EmptyString => None
      end
  end.

Definition search (fl : flags) (r : regex) (s : string) : option Match :=
  search_from fl r s 0.

(** [re.finditer]: the successive non-overlapping matches, each search
    resuming where the previous match ended.  Every pattern of the parser
    starts with a literal, so no match is empty and the scan over a text
    of length [n] makes at most [n] steps. *)
Fixpoint finditer_from (fuel : nat) (fl : flags) (r : regex) (s : string)
    (pos : nat) : list Match :=
  match fuel with
  | 0 => []
  | S fuel' =>
      match search_from fl r s pos with
      | Some m =>
          m :: finditer_from fuel' fl r (Str.drop (m_end m - pos) s) (m_end m)
      | None => []
      end
  end.

Definition finditer (fl : flags) (r : regex) (s : string) : list Match :=
  finditer_from (S (String.length s)) fl r s 0.

(** [re.findall] on a pattern with groups: the groups of each match. *)
Definition findall (fl : flags) (r : regex) (s : string) : list captures :=
  m_groups <$> finditer fl r s.

(** Zero or more, one or more. *)
Definition star (k : cclass) : regex := Rep k 0 true.
Definition plus (k : cclass) : regex := Rep k 1 true.
Definition star_lazy (k : cclass) : regex := Rep k 0 false.

Fixpoint cat (rs : list regex) : regex :=
  match rs with
  | [] => Lit EmptyString
  | [r] => r
  | r :: rs' => Cat r (cat rs')
  end.

End re.

(** ** Logging and exceptions

    [logger.info], [logger.warning] and [logger.error] append to a log;
    [raise] ends the call.  A computation yields the records it logged and
    either the exception it raised or its value. *)

Inductive exn :=
| ValueError (msg : string).

Inductive level := DEBUG | INFO | WARNING | ERROR.

Definition py (Msg A : Type) : Type := list (level * Msg) * (exn + A).

Definition raise {Msg A} (e : exn) : py Msg A := ([], inl e).

Definition logger {Msg} (l : level) (m : Msg) : py Msg unit :=
  ([(l, m)], inr tt).

Global Instance py_ret {Msg} : MRet (py Msg) := fun A x => ([], inr x).

Global Instance py_bind {Msg} : MBind (py Msg) := fun A B f c =>
  match c with
  | (l1, inl e) => (l1, inl e)
  | (l1, inr x) => let '(l2, r) := f x in (l1 ++ l2, r)
  end.

Global Arguments py_bind : simpl never.
Global Arguments logger : simpl never.

(** [for x in xs: st = body x st], stopping at the first exception. *)
Fixpoint for_each {Msg X St} (xs : list X) (body : X -> St -> py Msg St)
    (st : St) : py Msg St :=
  match xs with
  | [] => mret st
  | x :: xs' => st' ← body x st; for_each xs' body st'
  end.

Definition log_of {Msg A} (c : py Msg A) : list (level * Msg) := fst c.
Definition result_of {Msg A} (c : py Msg A) : exn + A := snd c.

(** ** The data model of the parser *)

Module Entity.
Record t := mk {
  entity_name : string;
  entity_type : string;
  description : string;
  source_id : string }.
End Entity.

Module Relationship.
Record t := mk {
  src_id : string;
  tgt_id : string;
  description : string;
  keywords : string;
  weight : spec_float;
  source_id : string }.
End Relationship.

Module Chunk.
Record t := mk {
  content : string;
  source_id : string;
  source_chunk_index : Z }.
End Chunk.

(** The payload: the three sequences, in extraction order. *)
Record kg_data := {
  entities : list Entity.t;
  relationships : list Relationship.t;
  chunks : list Chunk.t }.

(** [float(weight)] of a string of decimal digits: the binary64 number
    nearest to the integer, ties to even, infinite past the largest double. *)
Definition float (weight : string) : spec_float :=
  binary_normalize 53 1024 (Str.int weight) 0 false.

(** What the parser and the validator log. *)
Inductive kg_message :=
| found_chunks (n : nat)
| chunk_empty_skipped (chunk_id : string)
| chunk_ok (chunk_id : string) (chars : nat)
| chunk_without_original_text (chunk_id : string)
| parse_done (n_entities n_relationships n_chunks : nat)
| empty_entity_name (e : Entity.t)
| empty_entity_type (e : Entity.t)
| entities_valid (unique : nat)
| empty_source (r : Relationship.t)
| empty_target (r : Relationship.t)
| missing_keywords (src tgt : string)
| undefined_entities (missing : gset string)
| all_entities_defined
| no_chunks
| chunks_valid (n : nat).

(** Python's truth value of a string: [not s] holds of the empty one. *)
Definition falsy (s : string) : bool :=
  match s with EmptyString => true | _ => false end.

(** ** [validate_kg_data] *)

Definition check_entity (entity : Entity.t) (entity_names : gset string)
    : py kg_message (gset string) :=
  if falsy (Entity.entity_name entity) then
    logger ERROR (empty_entity_name entity);;
    raise (ValueError "Entity name cannot be empty")
  else if falsy (Entity.entity_type entity) then
    logger ERROR (empty_entity_type entity);;
    raise (ValueError "Entity type cannot be empty")
  else mret (entity_names ∪ {[Entity.entity_name entity]}).

Definition check_relationship (entity_names : gset string)
    (rel : Relationship.t) (missing_entities : gset string)
    : py kg_message (gset string) :=
  if falsy (Relationship.src_id rel) then
    logger ERROR (empty_source rel);;
    raise (ValueError "Source ID cannot be empty")
  else if falsy (Relationship.tgt_id rel) then
    logger ERROR (empty_target rel);;
    raise (ValueError "Target ID cannot be empty")
  else
    (if falsy (Relationship.keywords rel)
     then logger WARNING
            (missing_keywords (Relationship.src_id rel) (Relationship.tgt_id rel))
     else mret tt);;
    let missing1 :=
      if decide (Relationship.src_id rel ∈ entity_names) then missing_entities
      else missing_entities ∪ {[Relationship.src_id rel]} in
    let missing2 :=
      if decide (Relationship.tgt_id rel ∈ entity_names) then missing1
      else missing1 ∪ {[Relationship.tgt_id rel]} in
    mret missing2.

(** The warning about undefined entities stands for the header line with
    their number, the lines naming up to ten of them (in the set's iteration
    order) and the line counting the rest. *)
Definition validate_kg_data (entities : list Entity.t)
    (relationships : list Relationship.t) (chunks : list Chunk.t)
    : py kg_message unit :=
  entity_names ← for_each entities check_entity ∅;
  logger INFO (entities_valid (size entity_names));;
  missing_entities ← for_each relationships (check_relationship entity_names) ∅;
  (if decide (missing_entities = ∅)
   then logger INFO all_entities_defined
   else logger WARNING (undefined_entities missing_entities));;
  match chunks with
  | [] =>
      logger ERROR no_chunks;;
      raise (ValueError "No chunks found")
  | _ :: _ =>
      logger INFO (chunks_valid (length chunks))
  end.

(** ** [parse_kg_from_txt] *)

Definition dquote : ascii := "034"%char.

(** [No\.: (\d+) of all the chunks] *)
Definition chunk_pattern : re.regex :=
  re.cat [re.Lit "No.: "; re.Group 1 (re.plus re.c_digit);
          re.Lit " of all the chunks"].

(** [original text:\s*(.*?)(?=total tokens:|deepseek-v3 output:|$)] *)
Definition original_text_pattern : re.regex :=
  re.cat [re.Lit "original text:"; re.star re.c_space;
          re.Group 1 (re.star_lazy re.c_dot);
          re.Lookahead (re.Alt (re.Lit "total tokens:")
                          (re.Alt (re.Lit "deepseek-v3 output:") re.Dollar))].

(** [\s*\|\s*], the separator between two fields. *)
Definition bar : list re.regex :=
  [re.star re.c_space; re.Lit "|"; re.star re.c_space].

(** [\("entity"\s*\|\s*([^|]*?)\s*\|\s*([^|]*?)\s*\|\s*(.*?)\s*\)(?=\s*$|\s*\()] *)
Definition entity_pattern : re.regex :=
  re.cat ([re.Lit ("(" +:+ String dquote ("entity" +:+ String dquote EmptyString))]
          ++ bar ++ [re.Group 1 (re.star_lazy (re.c_not "|"))]
          ++ bar ++ [re.Group 2 (re.star_lazy (re.c_not "|"))]
          ++ bar ++ [re.Group 3 (re.star_lazy re.c_dot)]
          ++ [re.star re.c_space; re.Lit ")";
              re.Lookahead (re.Alt (re.Cat (re.star re.c_space) re.Dollar)
                              (re.Cat (re.star re.c_space) (re.Lit "(")))]).

(** [\("relationship"\s*\|\s*([^|]*?)\s*\|\s*([^|]*?)\s*\|\s*([^|]*?)\s*\|\s*(\d+)\s*\|\s*([^)]*?)\s*\)] *)
Definition relation_pattern : re.regex :=
  re.cat ([re.Lit ("(" +:+ String dquote ("relationship" +:+ String dquote EmptyString))]
          ++ bar ++ [re.Group 1 (re.star_lazy (re.c_not "|"))]
          ++ bar ++ [re.Group 2 (re.star_lazy (re.c_not "|"))]
          ++ bar ++ [re.Group 3 (re.star_lazy (re.c_not "|"))]
          ++ bar ++ [re.Group 4 (re.plus re.c_digit)]
          ++ bar ++ [re.Group 5 (re.star_lazy (re.c_not ")"))]
          ++ [re.star re.c_space; re.Lit ")"]).

(** The text of the chunk that [match] opens: from the end of its marker to
    the start of the next marker, or to the end of the text, stripped. *)
Definition chunk_text_of (full_text : string) (matches : list re.Match)
    (idx : nat) (match_ : re.Match) : string :=
  let start_pos := re.m_end match_ in
  let end_pos :=
    match matches !! (idx + 1) with
    | Some next => re.m_start next
    | None => String.length full_text
    end in
  Str.strip (Str.slice full_text start_pos end_pos).

Definition entity_of (source_id : string) (g : re.captures) : Entity.t :=
  {| Entity.entity_name := Str.strip (re.group g 1);
     Entity.entity_type := Str.strip (re.group g 2);
     Entity.description := Str.strip (re.group g 3);
     Entity.source_id := source_id |}.

Definition relationship_of (source_id : string) (g : re.captures)
    : Relationship.t :=
  {| Relationship.src_id := Str.strip (re.group g 1);
     Relationship.tgt_id := Str.strip (re.group g 2);
     Relationship.description := Str.strip (re.group g 3);
     Relationship.keywords := Str.strip (re.group g 5);
     Relationship.weight := float (re.group g 4);
     Relationship.source_id := source_id |}.

(** The entities and the relationships that one chunk text yields. *)
Definition extract_entities (source_id chunk_text : string) : list Entity.t :=
  entity_of source_id <$> re.findall re.M entity_pattern chunk_text.

Definition extract_relationships (source_id chunk_text : string)
    : list Relationship.t :=
  relationship_of source_id <$> re.findall re.M relation_pattern chunk_text.

(** The chunk record of a chunk text, when it has the [original text:]
    label. *)
Definition extract_chunk (chunk_id source_id chunk_text : string)
    : option Chunk.t :=
  match re.search re.S_ original_text_pattern chunk_text with
  | Some original_text_match =>
      Some {| Chunk.content :=
                Str.strip (re.group (re.m_groups original_text_match) 1);
              Chunk.source_id := source_id;
              Chunk.source_chunk_index := Str.int chunk_id |}
  | None => None
  end.

(** One turn of the loop over the markers. *)
Definition process_chunk (full_text : string) (matches : list re.Match)
    (im : nat * re.Match) (st : kg_data) : py kg_message kg_data :=
  let '(idx, match_) := im in
  let chunk_id := re.group (re.m_groups match_) 1 in
  let source_id := "chunk_" +:+ chunk_id in
  let chunk_text := chunk_text_of full_text matches idx match_ in
  if falsy chunk_text then
    logger WARNING (chunk_empty_skipped chunk_id);;
    mret st
  else
    chunks' ←
      match extract_chunk chunk_id source_id chunk_text with
      | Some c =>
          logger INFO (chunk_ok chunk_id (String.length (Chunk.content c)));;
          mret (chunks st ++ [c])
      | None =>
          logger WARNING (chunk_without_original_text chunk_id);;
          mret (chunks st)
      end;
    mret {| entities := entities st ++ extract_entities source_id chunk_text;
            relationships :=
              relationships st ++ extract_relationships source_id chunk_text;
            chunks := chunks' |}.

Definition empty_kg : kg_data :=
  {| entities := []; relationships := []; chunks := [] |}.

(** [enumerate(xs)] *)
Definition enumerate {X} (xs : list X) : list (nat * X) :=
  imap (fun i x => (i, x)) xs.

(** The accumulation loop of [parse_kg_from_txt], before validation. *)
Definition extract_kg (full_text : string) : py kg_message kg_data :=
  let matches := re.finditer re.no_flags chunk_pattern full_text in
  logger INFO (found_chunks (length matches));;
  for_each (enumerate matches) (process_chunk full_text matches) empty_kg.

(** [parse_kg_from_txt], on the text read from [txt_path]. *)
Definition parse_kg_from_txt (full_text : string) : py kg_message kg_data :=
  kg ← extract_kg full_text;
  logger INFO (parse_done (length (entities kg)) (length (relationships kg))
                 (length (chunks kg)));;
  validate_kg_data (entities kg) (relationships kg) (chunks kg);;
  mret kg.

(** ** What the validator checks *)

Definition entity_ok (e : Entity.t) : bool :=
  negb (falsy (Entity.entity_name e)) && negb (falsy (Entity.entity_type e)).

Definition relationship_ok (r : Relationship.t) : bool :=
  negb (falsy (Relationship.src_id r)) && negb (falsy (Relationship.tgt_id r)).

(** The names of the entities, and the endpoints of the relationships. *)
Definition names_of (es : list Entity.t) : gset string :=
  list_to_set (Entity.entity_name <$> es).

Definition endpoints_of (rs : list Relationship.t) : gset string :=
  list_to_set (rs ≫= fun r => [Relationship.src_id r; Relationship.tgt_id r]).

(** A log record that is not the report of undefined entities. *)
Definition other_record (r : level * kg_message) : Prop :=
  match r.2 with undefined_entities _ => False | _ => True end.

(** The references that the validator finds missing: the endpoints that
    name no entity. *)
Definition missing_references (es : list Entity.t) (rs : list Relationship.t)
    : gset string :=
  endpoints_of rs ∖ names_of es.

(** What the validator says about the references once both loops have
    passed. *)
Definition reference_report (missing : gset string) : level * kg_message :=
  if decide (missing = ∅) then (INFO, all_entities_defined)
  else (WARNING, undefined_entities missing).

(** What it says about the chunks, and how it ends. *)
Definition chunk_verdict (cs : list Chunk.t)
    : list (level * kg_message) * (exn + unit) :=
  match cs with
  | [] => ([(ERROR, no_chunks)], inl (ValueError "No chunks found"))
  | _ :: _ => ([(INFO, chunks_valid (length cs))], inr tt)
  end.

(** ** What the loop accumulates *)

(** The markers of a text, and for each of them the chunk identifier with
    the chunk text that the loop computes. *)
Definition markers (full_text : string) : list re.Match :=
  re.finditer re.no_flags chunk_pattern full_text.

Definition segment_of (full_text : string) (matches : list re.Match)
    (idx : nat) (match_ : re.Match) : string * string :=
  (re.group (re.m_groups match_) 1, chunk_text_of full_text matches idx match_).

Definition segments (full_text : string) : list (string * string) :=
  imap (segment_of full_text (markers full_text)) (markers full_text).

(** The segments that are not skipped: those whose text is not empty. *)
Definition processed (full_text : string) : list (string * string) :=
  List.filter (fun seg => negb (falsy seg.2)) (segments full_text).

Definition skipped (full_text : string) : list (string * string) :=
  List.filter (fun seg => falsy seg.2) (segments full_text).

(** What one processed segment adds to the three sequences. *)
Definition contribution (seg : string * string) : kg_data :=
  let source_id := "chunk_" +:+ seg.1 in
  {| entities := extract_entities source_id seg.2;
     relationships := extract_relationships source_id seg.2;
     chunks := option_list (extract_chunk seg.1 source_id seg.2) |}.

Definition kg_app (a b : kg_data) : kg_data :=
  {| entities := entities a ++ entities b;
     relationships := relationships a ++ relationships b;
     chunks := chunks a ++ chunks b |}.

Definition kg_concat (l : list kg_data) : kg_data :=
  {| entities := concat (entities <$> l);
     relationships := concat (relationships <$> l);
     chunks := concat (chunks <$> l) |}.

(** The sequences that the loop of [parse_kg_from_txt] has accumulated when
    it ends: the contributions of the processed segments, in order. *)
Definition extracted (full_text : string) : kg_data :=
  kg_concat (contribution <$> processed full_text).

(** An entity, or a relationship, that the validator rejects. *)
Definition empty_name_or_type (e : Entity.t) : Prop :=
  Entity.entity_name e = EmptyString \/ Entity.entity_type e = EmptyString.

Definition empty_endpoint (r : Relationship.t) : Prop :=
  Relationship.src_id r = EmptyString \/ Relationship.tgt_id r = EmptyString.

Definition integrity_violation (kg : kg_data) : Prop :=
  Exists empty_name_or_type (entities kg)
  \/ Exists empty_endpoint (relationships kg)
  \/ chunks kg = [].

(** ** What a match looks like

    [denotes fl r s s' cs cs']: the pattern [r] can match the head of [s]
    and leave [s'], taking the groups from [cs] to [cs'].  The matcher only
    returns matches of this shape. *)

Fixpoint denotes (fl : re.flags) (r : re.regex) (s s' : string)
    (cs cs' : re.captures) : Prop :=
  match r with
  | re.Lit p => s = p +:+ s' /\ cs' = cs
  | re.Rep k min _ =>
      exists w, s = w +:+ s'
        /\ Str.forallb (re.class_match fl k) w = true
        /\ min <= String.length w /\ cs' = cs
  | re.Cat r1 r2 =>
      exists s1 cs1, denotes fl r1 s s1 cs cs1 /\ denotes fl r2 s1 s' cs1 cs'
  | re.Alt r1 r2 => denotes fl r1 s s' cs cs' \/ denotes fl r2 s s' cs cs'
  | re.Group n r1 =>
      exists w cs1, s = w +:+ s' /\ denotes fl r1 s s' cs cs1
        /\ cs' = (n, w) :: cs1
  | re.Lookahead r1 => s' = s /\ exists s1, denotes fl r1 s s1 cs cs'
  | re.Dollar => s' = s /\ cs' = cs /\ re.at_dollar fl s = true
  end.

(** A match found by [search] or [finditer] lies in the text and has the
    shape of the pattern. *)
Definition found_in (fl : re.flags) (r : re.regex) (s : string)
    (m : re.Match) : Prop :=
  exists pre body post,
    s = pre +:+ body +:+ post
    /\ denotes fl r (body +:+ post) post [] (re.m_groups m).

(** ** The records that the two patterns accept *)

Definition white (w : string) : Prop := Str.forallb Str.is_space w = true.

Definition without (c : ascii) (w : string) : Prop :=
  Str.forallb (fun x => negb (Ascii.eqb x c)) w = true.

Definition digits (w : string) : Prop :=
  Str.forallb Str.is_digit w = true /\ w <> EmptyString.

Definition tag (name : string) : string :=
  "(" +:+ String dquote (name +:+ String dquote EmptyString).

(** The text of a record that the entity pattern matches, with the three
    fields as the groups capture them: the tag, then the name and the type,
    neither with a pipe in it, then the description, which is anything on
    one line, then the closing parenthesis; white space may surround each
    pipe and precede the parenthesis. *)
Definition entity_record (name type description : string) (body : string)
    : Prop :=
  without "|" name /\ without "|" type /\ without re.newline description
  /\ exists w1 w2 w3 w4 w5 w6 w7,
       Forall white [w1; w2; w3; w4; w5; w6; w7]
       /\ body = tag "entity"
                  +:+ w1 +:+ "|" +:+ w2 +:+ name
                  +:+ w3 +:+ "|" +:+ w4 +:+ type
                  +:+ w5 +:+ "|" +:+ w6 +:+ description
                  +:+ w7 +:+ ")".

(** What must follow an entity record: white space up to the end of a line,
    or white space and an opening parenthesis. *)
Definition entity_follow (post : string) : Prop :=
  exists w rest, white w /\ post = w +:+ rest
    /\ (re.at_dollar re.M rest = true \/ exists rest', rest = "(" +:+ rest').

(** The text of a record that the relationship pattern matches: the weight
    is a string of digits, and only the keywords may have a pipe in them. *)
Definition relationship_record (src tgt description weight keywords : string)
    (body : string) : Prop :=
  without "|" src /\ without "|" tgt /\ without "|" description
  /\ digits weight /\ without ")" keywords
  /\ exists w1 w2 w3 w4 w5 w6 w7 w8 w9 w10 w11,
       Forall white [w1; w2; w3; w4; w5; w6; w7; w8; w9; w10; w11]
       /\ body = tag "relationship"
                  +:+ w1 +:+ "|" +:+ w2 +:+ src
                  +:+ w3 +:+ "|" +:+ w4 +:+ tgt
                  +:+ w5 +:+ "|" +:+ w6 +:+ description
                  +:+ w7 +:+ "|" +:+ w8 +:+ weight
                  +:+ w9 +:+ "|" +:+ w10 +:+ keywords
                  +:+ w11 +:+ ")".


(** ** The markers of the chunks *)

Definition marker_head : string := "No.: ".
Definition marker_tail : string := " of all the chunks".

(** A marker with the identifier [d]. *)
Definition marker (d : string) : string := marker_head +:+ d +:+ marker_tail.

(** A text that starts with a marker. *)
Definition starts_with_marker (s : string) : Prop :=
  exists d rest, digits d /\ s = marker d +:+ rest.

(** ** The weight of a relationship *)

(** The number that a binary64 value stands for; none for an infinity or a
    NaN. *)
Definition float_value (f : spec_float) : option Q :=
  match f with
  | S754_zero _ => Some 0%Q
  | S754_finite s m e =>
      Some match e with
           | Zneg k => Qmake (cond_Zopp s (Zpos m)) (2 ^ k)
           | _ => inject_Z (cond_Zopp s (Zpos m) * 2 ^ e)
           end
  | _ => None
  end.

(** [f == n] in Python, for a float [f] and an integer [n]. *)
Definition float_equals (f : spec_float) (n : Z) : Prop :=
  match float_value f with
  | Some q => Qeq q (inject_Z n)
  | None => False
  end.

(** ** Patterns whose lookaheads capture nothing *)

(** A pattern without groups. *)
Fixpoint groupless (r : re.regex) : bool :=
  match r with
  | re.Group _ _ => false
  | re.Cat r1 r2 | re.Alt r1 r2 => groupless r1 && groupless r2
  | re.Lookahead r1 => groupless r1
  | _ => true
  end.

(** A pattern whose lookaheads have no group, as in the parser. *)
Fixpoint plain_lookaheads (r : re.regex) : bool :=
  match r with
  | re.Lookahead r1 => groupless r1
  | re.Cat r1 r2 | re.Alt r1 r2 => plain_lookaheads r1 && plain_lookaheads r2
  | re.Group _ r1 => plain_lookaheads r1
  | _ => true
  end.

(** ** Sample records *)


Definition sample_entity : string :=
  tag "entity" +:+ "| Alice| person |A person )".

Definition sample_relationship : string :=
  tag "relationship" +:+ "|Alice|Bob|knows|7|friend)".

Definition large_weight_relationship : string :=
  tag "relationship" +:+ "|A|B|d|9007199254740993|k)".



(** ** More vocabulary of the parser *)








(** The warning for a relationship without keywords. *)
Definition keyword_warning (r : Relationship.t) : list (level * kg_message) :=
  if falsy (Relationship.keywords r)
  then [(WARNING,
         missing_keywords (Relationship.src_id r) (Relationship.tgt_id r))]
  else [].

(** Two relationships of Alice, the second without keywords. *)
Definition terse_relationships : list Relationship.t :=
  [ {| Relationship.src_id := "Alice"; Relationship.tgt_id := "Bob";
       Relationship.description := "knows"; Relationship.keywords := "friend";
       Relationship.weight := float "3"; Relationship.source_id := "chunk_1" |};
    {| Relationship.src_id := "Alice"; Relationship.tgt_id := "Carol";
       Relationship.description := "met"; Relationship.keywords := EmptyString;
       Relationship.weight := float "1"; Relationship.source_id := "chunk_1" |} ].

(** What the loop logs for a segment. *)
Definition segment_record (seg : string * string) : level * kg_message :=
  if falsy seg.2 then (WARNING, chunk_empty_skipped seg.1)
  else
    match extract_chunk seg.1 ("chunk_" +:+ seg.1) seg.2 with
    | Some c => (INFO, chunk_ok seg.1 (String.length (Chunk.content c)))
    | None => (WARNING, chunk_without_original_text seg.1)
    end.

(** A chunk identifier of the text: the digits of one of its markers. *)
Definition identifier_of (full_text d : string) : Prop :=
  digits d /\ exists p, exists rest, Str.drop p full_text = marker d +:+ rest.

(** A text with no white space at either end. *)
Definition trimmed (s : string) : Prop :=
  Str.lstrip s = s /\ Str.rstrip s = s.

(** Whether the original text stops here: one of the two trailers starts,
    or the text ends. *)
Definition trailer_here (s : string) : bool :=
  match Str.strip_prefix "total tokens:" s with
  | Some _ => true
  | None =>
      match Str.strip_prefix "deepseek-v3 output:" s with
      | Some _ => true
      | None => re.at_dollar re.S_ s
      end
  end.

(** The text up to the first place where it stops. *)
Fixpoint before_trailer (s : string) : string :=
  if trailer_here s then EmptyString
  else match s with
       | String c s' => String c (before_trailer s')
       | EmptyString => EmptyString
       end.

(** What follows the first [original text:] label. *)
Fixpoint after_label (s : string) : option string :=
  match Str.strip_prefix "original text:" s with
  | Some rest => Some rest
  | None =>
      match s with
      | String _ s' => after_label s'
      | EmptyString => None
      end
  end.

(** A binary64 value that is zero, positive or the positive infinity: not a
    NaN, and without the sign bit. *)
Definition nonnegative (f : spec_float) : bool :=
  match f with
  | S754_zero false | S754_finite false _ _ | S754_infinity false => true
  | _ => false
  end.

(** The match of the marker with identifier [d] at position [pos], and a
    match moved by [k] characters. *)
Definition marker_match (pos : nat) (d : string) : re.Match :=
  {| re.m_start := pos; re.m_end := pos + String.length (marker d);
     re.m_groups := [(1, d)] |}.

Definition shift (k : nat) (m : re.Match) : re.Match :=
  {| re.m_start := k + re.m_start m; re.m_end := k + re.m_end m;
     re.m_groups := re.m_groups m |}.

(** * [retrieval_logger.py] *)

(** ** The data model *)

(** A JSON value, for the [Any] of the annotations. *)
Inductive json :=
| JNull
| JBool (b : bool)
| JInt (n : Z)
| JFloat (f : spec_float)
| JStr (s : string)
| JList (l : list json)
| JDict (items : list (string * json)).

(** [Dict[str, Any]] *)
Definition mapping : Type := list (string * json).

Module RetrievalResult.
Record t := mk {
  query : string;
  query_mode : string;
  timestamp : spec_float;
  entities : list mapping;
  relationships : list mapping;
  text_chunks : list mapping;
  high_level_keywords : list string;
  low_level_keywords : list string;
  metadata : mapping;
  final_response : option string }.
End RetrievalResult.

(** The files, by path.  Paths are taken as normalised strings; directories
    are created on demand and are not represented. *)
Abbreviation files := (gmap string string).

(** What the log store logs. *)
Inductive store_message :=
| logger_initialized (log_file : string)
| logged_retrieval (query_head : string)
| log_file_not_found (file_path : string)
| loaded_results (n : nat) (file_path : string)
| failed_to_load (file_path : string)
| no_jsonl_files (log_dir : string)
| found_jsonl_files (n : nat)
| reading_file (file_path : string)
| total_loaded (n : nat)
| exported_results (n : nat) (output_file : string).

Definition linefeed : string := String re.newline EmptyString.
Definition carriage_return : ascii := "013"%char.

(** The lines of a text file as iterating over it yields them, each with its
    line end, which reading translates to a line feed whether it was a line
    feed, a carriage return or both. *)
Fixpoint readlines (content : string) : list string :=
  match content with
  | EmptyString => []
  | String c rest =>
      if Ascii.eqb c re.newline then linefeed :: readlines rest
      else if Ascii.eqb c carriage_return then
        match rest with
        | String c' rest' =>
            if Ascii.eqb c' re.newline then linefeed :: readlines rest'
            else linefeed :: readlines rest
        | EmptyString => [linefeed]
        end
      else
        match readlines rest with
        | [] => [String c EmptyString]
        | line :: lines => String c line :: lines
        end
  end.

(** [sum(...) / n] on counts: true division, the binary64 quotient. *)
Definition true_div (a b : nat) : spec_float :=
  SFdiv 53 1024 (binary_normalize 53 1024 (Z.of_nat a) 0 false)
    (binary_normalize 53 1024 (Z.of_nat b) 0 false).

(** The mapping that [get_statistics] returns when there are records. *)
Record statistics := {
  total_queries : nat;
  mode_distribution : gmap string nat;
  avg_entities_per_query : spec_float;
  avg_relationships_per_query : spec_float;
  avg_chunks_per_query : spec_float;
  queries_with_no_results : nat }.

(** The running totals of the loop of [get_statistics]. *)
Record totals := {
  modes : gmap string nat;
  total_entities : nat;
  total_relationships : nat;
  total_chunks : nat;
  no_results : nat }.

Definition is_empty {X} (l : list X) : bool :=
  match l with [] => true | _ => false end.

Definition count_result (result : RetrievalResult.t) (st : totals) : totals :=
  let mode := RetrievalResult.query_mode result in
  {| modes := <[mode := default 0 (modes st !! mode) + 1]> (modes st);
     total_entities :=
       total_entities st + length (RetrievalResult.entities result);
     total_relationships :=
       total_relationships st + length (RetrievalResult.relationships result);
     total_chunks :=
       total_chunks st + length (RetrievalResult.text_chunks result);
     no_results :=
       if is_empty (RetrievalResult.entities result)
          && is_empty (RetrievalResult.relationships result)
          && is_empty (RetrievalResult.text_chunks result)
       then no_results st + 1 else no_results st |}.

Definition no_totals : totals :=
  {| modes := ∅; total_entities := 0; total_relationships := 0;
     total_chunks := 0; no_results := 0 |}.



Module RetrievalLogger.

(** The logger: its directory and the session number, [int(time.time())] at
    construction. *)
Record t := mk { log_dir : string; session_id : Z }.

Definition log_file (self : t) : string :=
  log_dir self +:+ "/retrieval_log_"
  +:+ NilZero.string_of_int (Z.to_int (session_id self)) +:+ ".jsonl".

(** [__init__] *)
Definition init (log_dir : string) (now : Z) : py store_message t :=
  let self := {| log_dir := log_dir; session_id := now |} in
  logger INFO (logger_initialized (log_file self));;
  mret self.


Section Json.

(** The [json] library, on records: [json_dumps r] is the text that
    [json.dump(asdict(r), f, ensure_ascii=False)] writes, [json_loads line]
    is the [RetrievalResult] built from [json.loads(line)], with [None] when
    either call raises, and [json_dumps_indented r] is the text of
    [asdict(r)] as an element of an array written with [indent=2]. *)
Variable json_dumps : RetrievalResult.t -> string.
Variable json_loads : string -> option RetrievalResult.t.
Variable json_dumps_indented : RetrievalResult.t -> string.

(** [log_retrieval]: open for appending, write the record and a line feed.
    Writing to the store does not fail, so the [except] branch is never
    taken. *)
Definition log_retrieval (self : t) (retrieval_result : RetrievalResult.t)
    (fs : files) : py store_message files :=
  let old := default EmptyString (fs !! log_file self) in
  let fs' :=
    <[log_file self := old +:+ json_dumps retrieval_result +:+ linefeed]> fs in
  logger DEBUG
    (logged_retrieval (Str.take 50 (RetrievalResult.query retrieval_result)));;
  mret fs'.

(** The loop of [load_logs] over the lines; [None] when a line raises. *)
Fixpoint read_results (lines : list string) (results : list RetrievalResult.t)
    : option (list RetrievalResult.t) :=
  match lines with
  | [] => Some results
  | line :: lines' =>
      if falsy (Str.strip line) then read_results lines' results
      else
        match json_loads line with
        | Some result => read_results lines' (results ++ [result])
        | None => None
        end
  end.

(** The path that [load_logs] reads: the given one, or the session's file
    when none, or an empty one, is given. *)
Definition file_path_of (self : t) (log_file_arg : option string) : string :=
  match log_file_arg with
  | Some p => if falsy p then log_file self else p
  | None => log_file self
  end.

Definition load_logs (self : t) (log_file_arg : option string) (fs : files)
    : py store_message (list RetrievalResult.t) :=
  let file_path := file_path_of self log_file_arg in
  match fs !! file_path with
  | None =>
      logger WARNING (log_file_not_found file_path);;
      mret []
  | Some content =>
      match read_results (readlines content) [] with
      | Some results =>
          logger INFO (loaded_results (length results) file_path);;
          mret results
      | None =>
          logger ERROR (failed_to_load file_path);;
          mret []
      end
  end.




(** [get_statistics]; [None] stands for the empty mapping. *)
Definition get_statistics (self : t) (log_file_arg : option string)
    (fs : files) : py store_message (option statistics) :=
  results ← load_logs self log_file_arg fs;
  if is_empty results then mret None
  else
    let st := foldl (fun st result => count_result result st) no_totals results in
    mret (Some {|
      total_queries := length results;
      mode_distribution := modes st;
      avg_entities_per_query := true_div (total_entities st) (length results);
      avg_relationships_per_query :=
        true_div (total_relationships st) (length results);
      avg_chunks_per_query := true_div (total_chunks st) (length results);
      queries_with_no_results := no_results st |}).

End Json.
End RetrievalLogger.

(** ** What a log holds *)

(** A text without a line end in it. *)
Definition one_line (s : string) : Prop :=
  without re.newline s /\ without carriage_return s.

(** What the log store needs of the [json] library for a record: the text
    written for it is one line, is not blank, and reads back as the record
    when its line feed follows it. *)
Definition reads_back (json_dumps : RetrievalResult.t -> string)
    (json_loads : string -> option RetrievalResult.t) (r : RetrievalResult.t)
    : Prop :=
  one_line (json_dumps r)
  /\ Str.strip (json_dumps r) <> EmptyString
  /\ json_loads (json_dumps r +:+ linefeed) = Some r.


Definition holds_nothing (r : RetrievalResult.t) : bool :=
  is_empty (RetrievalResult.entities r)
  && is_empty (RetrievalResult.relationships r)
  && is_empty (RetrievalResult.text_chunks r).

Definition count_all (st : totals) (results : list RetrievalResult.t) : totals :=
  foldl (fun st result => count_result result st) st results.

(** The text that logging the records appends to the session file. *)
Definition written (json_dumps : RetrievalResult.t -> string)
    (records : list RetrievalResult.t) : string :=
  foldr (fun r acc => json_dumps r +:+ linefeed +:+ acc) EmptyString records.

(** ** Sample data *)

Definition sample_entities : list Entity.t :=
  [ {| Entity.entity_name := "Alice"; Entity.entity_type := "person";
       Entity.description := "A person"; Entity.source_id := "chunk_1" |} ].

Definition sample_relationships : list Relationship.t :=
  [ {| Relationship.src_id := "Alice"; Relationship.tgt_id := "Bob";
       Relationship.description := "knows"; Relationship.keywords := "friend";
       Relationship.weight := float "3"; Relationship.source_id := "chunk_1" |} ].

Definition sample_chunks : list Chunk.t :=
  [ {| Chunk.content := "Hello world"; Chunk.source_id := "chunk_1";
       Chunk.source_chunk_index := 1 |} ].

(** The scenario of the specification: one marker, one entity, one
    relationship of weight 3. *)
Definition scenario_text : string :=
  "No.: 1 of all the chunks" +:+ linefeed
  +:+ "original text: Hello world total tokens: 5" +:+ linefeed
  +:+ tag "entity" +:+ "|Alice|person|A person)" +:+ linefeed
  +:+ tag "relationship" +:+ "|Alice|Bob|knows|3|friend)" +:+ linefeed.

(** Two records as a caller would log them, and the lines that the [json]
    library writes for them, with an apostrophe standing for each double
    quote. *)
Definition sample_result_1 : RetrievalResult.t :=
  {| RetrievalResult.query := "what is a beam";
     RetrievalResult.query_mode := "local";
     RetrievalResult.timestamp := float "1700000000";
     RetrievalResult.entities := [[("entity_name", JStr "beam")]];
     RetrievalResult.relationships := [];
     RetrievalResult.text_chunks := [[("content", JStr "A beam carries load")]];
     RetrievalResult.high_level_keywords := ["structure"];
     RetrievalResult.low_level_keywords := ["beam"];
     RetrievalResult.metadata := [("top_k", JInt 5)];
     RetrievalResult.final_response := Some "A beam is a structural member" |}.

Definition sample_result_2 : RetrievalResult.t :=
  {| RetrievalResult.query := "cost of concrete";
     RetrievalResult.query_mode := "global";
     RetrievalResult.timestamp := float "1700000060";
     RetrievalResult.entities := [];
     RetrievalResult.relationships := [];
     RetrievalResult.text_chunks := [];
     RetrievalResult.high_level_keywords := [];
     RetrievalResult.low_level_keywords := [];
     RetrievalResult.metadata := [];
     RetrievalResult.final_response := None |}.

Fixpoint json_text (s : string) : string :=
  match s with
  | String c s' =>
      String (if Ascii.eqb c "'" then dquote else c) (json_text s')
  | EmptyString => EmptyString
  end.

Definition sample_line_1 : string :=
  json_text "{'query': 'what is a beam', 'query_mode': 'local', 'timestamp': 1700000000.0, 'entities': [{'entity_name': 'beam'}], 'relationships': [], 'text_chunks': [{'content': 'A beam carries load'}], 'high_level_keywords': ['structure'], 'low_level_keywords': ['beam'], 'metadata': {'top_k': 5}, 'final_response': 'A beam is a structural member'}".

Definition sample_line_2 : string :=
  json_text "{'query': 'cost of concrete', 'query_mode': 'global', 'timestamp': 1700000060.0, 'entities': [], 'relationships': [], 'text_chunks': [], 'high_level_keywords': [], 'low_level_keywords': [], 'metadata': {}, 'final_response': null}".

(** The [json] library on the sample records: what it writes for each, and
    what it reads from a line; a line that is neither sample line stands for
    a malformed one. *)
Definition sample_dumps (r : RetrievalResult.t) : string :=
  if String.eqb (RetrievalResult.query r) "what is a beam" then sample_line_1
  else sample_line_2.

Definition sample_loads (line : string) : option RetrievalResult.t :=
  if String.eqb (Str.strip line) sample_line_1 then Some sample_result_1
  else if String.eqb (Str.strip line) sample_line_2 then Some sample_result_2
  else None.


Definition sample_logger : RetrievalLogger.t :=
  {| RetrievalLogger.log_dir := "retrieval_logs";
     RetrievalLogger.session_id := 1700000000 |}.

(** A session file with the two sample lines, and one whose second line is
    not JSON. *)
Definition sample_files : files :=
  {[ "retrieval_logs/retrieval_log_1700000000.jsonl"
     := sample_line_1 +:+ linefeed +:+ sample_line_2 +:+ linefeed ]}.

Definition damaged_files : files :=
  {[ "retrieval_logs/retrieval_log_1700000000.jsonl"
     := sample_line_1 +:+ linefeed +:+ "not json" +:+ linefeed ]}.

(** ** More vocabulary of the log store *)

(** A line of a log as a reader finds it: the text of a record, or a blank
    line. *)
Definition log_line_text (json_dumps : RetrievalResult.t -> string)
    (line : RetrievalResult.t + string) : string :=
  match line with
  | inl r => json_dumps r +:+ linefeed
  | inr w => w +:+ linefeed
  end.

(** The text of a log made of these lines, and the records among them. *)
Definition log_text (json_dumps : RetrievalResult.t -> string)
    (lines : list (RetrievalResult.t + string)) : string :=
  foldr (fun line acc => log_line_text json_dumps line +:+ acc) EmptyString
    lines.

Definition records_of (lines : list (RetrievalResult.t + string))
    : list RetrievalResult.t :=
  omap (fun line => match line with inl r => Some r | inr _ => None end) lines.

(** A record that the [json] library reads back, or a line of white space
    with no line end in it. *)
Definition well_formed_line (json_dumps : RetrievalResult.t -> string)
    (json_loads : string -> option RetrievalResult.t)
    (line : RetrievalResult.t + string) : Prop :=
  match line with
  | inl r => reads_back json_dumps json_loads r
  | inr w => white w /\ one_line w
  end.


(** The sum of the counts of a mode distribution. *)
Definition mode_total (m : gmap string nat) : nat :=
  map_fold (fun _ n acc => n + acc) 0 m.

(** A log with a blank line between its two records. *)
Definition spaced_lines : list (RetrievalResult.t + string) :=
  [inl sample_result_1; inr "  "%string; inl sample_result_2].

Definition spaced_files : files :=
  {[ "retrieval_logs/retrieval_log_1700000000.jsonl"
     := log_text sample_dumps spaced_lines ]}.

(** The logger of the next session in the same directory. *)
Definition next_logger : RetrievalLogger.t :=
  {| RetrievalLogger.log_dir := "retrieval_logs";
     RetrievalLogger.session_id := 1700000001 |}.

(** * Properties *)

(** ** Computations *)

Lemma for_each_cons {Msg X St} (x : X) (xs : list X)
    (body : X -> St -> py Msg St) (st : St) :
  for_each (x :: xs) body st = body x st ≫= for_each xs body.
Proof. reflexivity. Qed.

Section Computations.
Context {Msg : Type}.

Lemma bind_raise {A B} (l : list (level * Msg)) (e : exn) (f : A -> py Msg B) :
  (l, inl e) ≫= f = (l, inl e).
Proof. reflexivity. Qed.

Lemma bind_return {A B} (l : list (level * Msg)) (x : A) (f : A -> py Msg B) :
  (l, inr x) ≫= f = (l ++ log_of (f x), result_of (f x)).
Proof. unfold mbind, py_bind, log_of, result_of. by destruct (f x). Qed.

Lemma result_bind {A B} (c : py Msg A) (f : A -> py Msg B) :
  result_of (c ≫= f) =
  match result_of c with
  | inl e => inl e
  | inr x => result_of (f x)
  end.
Proof. destruct c as [l [e|x]]; [done|]. by rewrite bind_return. Qed.

Lemma log_bind {A B} (c : py Msg A) (f : A -> py Msg B) :
  log_of (c ≫= f) =
  log_of c ++ match result_of c with
              | inl _ => []
              | inr x => log_of (f x)
              end.
Proof.
  destruct c as [l [e|x]].
  - simpl. by rewrite app_nil_r.
  - by rewrite bind_return.
Qed.

Lemma py_eta {A} (c : py Msg A) : c = (log_of c, result_of c).
Proof. by destruct c. Qed.

Lemma mret_eq {A} (x : A) : (mret x : py Msg A) = ([], inr x).
Proof. reflexivity. Qed.

Lemma bind_return_nil {A B} (x : A) (f : A -> py Msg B) :
  ([], inr x) ≫= f = f x.
Proof. rewrite bind_return. simpl. symmetry. apply py_eta. Qed.

Lemma bind_mret {A B} (x : A) (f : A -> py Msg B) : mret x ≫= f = f x.
Proof.
  change (mret x) with (([], inr x) : py Msg A).
  rewrite bind_return. simpl. symmetry. apply py_eta.
Qed.

Lemma bind_logger {B} (l : level) (m : Msg) (f : unit -> py Msg B) :
  logger l m ≫= f = ((l, m) :: log_of (f tt), result_of (f tt)).
Proof. unfold logger. by rewrite bind_return. Qed.


End Computations.

(** ** Strings *)

Lemma append_cons (c : ascii) (s t : string) :
  String c s +:+ t = String c (s +:+ t).
Proof. reflexivity. Qed.

Lemma append_empty_l (s : string) : EmptyString +:+ s = s.
Proof. reflexivity. Qed.

Lemma append_empty_r (s : string) : s +:+ EmptyString = s.
Proof. induction s; [done|]. by rewrite append_cons, IHs. Qed.

Lemma append_assoc (s t u : string) : (s +:+ t) +:+ u = s +:+ (t +:+ u).
Proof. induction s; [done|]. by rewrite !append_cons, IHs. Qed.

Lemma length_append (s t : string) :
  String.length (s +:+ t) = String.length s + String.length t.
Proof. induction s; [done|]. rewrite append_cons. simpl. by rewrite IHs. Qed.

Lemma append_inv_tail (w w' s : string) : w +:+ s = w' +:+ s -> w = w'.
Proof.
  revert w'. induction w as [|c w IH]; intros [|c' w'] H.
  - done.
  - apply (f_equal String.length) in H.
    rewrite !length_append in H. simpl in H. lia.
  - apply (f_equal String.length) in H.
    rewrite !length_append in H. simpl in H. lia.
  - rewrite !append_cons in H. injection H as -> H. f_equal. by apply IH.
Qed.

Lemma strip_prefix_spec (p s s' : string) :
  Str.strip_prefix p s = Some s' <-> s = p +:+ s'.
Proof.
  revert s. induction p as [|a p IH]; intros s; simpl.
  - rewrite append_empty_l. split; congruence.
  - rewrite append_cons. destruct s as [|b s]; [done|].
    destruct (Ascii.eqb_spec a b) as [->|Hne].
    + rewrite IH. split; congruence.
    + split; [done|]. congruence.
Qed.

Lemma strip_prefix_append (p s : string) : Str.strip_prefix p (p +:+ s) = Some s.
Proof. by apply strip_prefix_spec. Qed.

Lemma take_append (w s : string) :
  Str.take (String.length (w +:+ s) - String.length s) (w +:+ s) = w.
Proof.
  rewrite length_append. replace (_ + _ - _) with (String.length w) by lia.
  unfold Str.take. induction w as [|c w IH]; simpl.
  - by destruct s.
  - by rewrite IH.
Qed.

Lemma drop_suffix (n : nat) (s : string) : exists pre, s = pre +:+ Str.drop n s.
Proof.
  revert s. induction n as [|n IH]; intros s.
  - exists EmptyString. by destruct s.
  - destruct s as [|c s]; [by exists EmptyString|].
    destruct (IH s) as [pre Hpre]. exists (String c pre).
    rewrite append_cons. simpl. by rewrite <- Hpre.
Qed.


Lemma drop_append pre s : Str.drop (String.length pre) (pre +:+ s) = s.
Proof. induction pre as [|c pre IH]; [by destruct s|]. by rewrite append_cons. Qed.

Lemma drop_drop a b s : Str.drop (a + b) s = Str.drop b (Str.drop a s).
Proof.
  revert s. induction a as [|a IH]; intros s; simpl.
  - by destruct b, s.
  - destruct s as [|c s]; [by destruct b|]. apply IH.
Qed.

Lemma drop_inside q x rest :
  q < String.length x ->
  exists c y, Str.drop q (x +:+ rest) = String c (y +:+ rest)
    /\ Str.drop q x = String c y.
Proof.
  revert x. induction q as [|q IH]; intros [|c x] Hq; simpl in Hq; try lia.
  - by exists c, x.
  - rewrite append_cons. simpl. apply IH. lia.
Qed.

Lemma drop_forallb f q x c y :
  Str.forallb f x = true -> Str.drop q x = String c y -> f c = true.
Proof.
  revert x. induction q as [|q IH]; intros [|c' x]; simpl; try done.
  - intros [Hc _]%andb_prop [= <- _]. done.
  - intros [_ Hx]%andb_prop. by apply IH.
Qed.

Lemma length_drop n s : String.length (Str.drop n s) = String.length s - n.
Proof.
  revert s. induction n as [|n IH]; intros [|c s]; simpl; try done; lia.
Qed.

Lemma drop_beyond q s : String.length s <= q -> Str.drop q s = EmptyString.
Proof.
  revert s. induction q as [|q IH]; intros [|c s]; simpl; try done; try lia.
  intros H. apply IH. lia.
Qed.

Lemma forallb_append f s t :
  Str.forallb f (s +:+ t) = Str.forallb f s && Str.forallb f t.
Proof.
  induction s as [|c s IH]; [done|]. rewrite append_cons. simpl.
  by rewrite IH, andb_assoc.
Qed.

Lemma forallb_impl (f g : ascii -> bool) s :
  (forall c, f c = true -> g c = true) ->
  Str.forallb f s = true -> Str.forallb g s = true.
Proof.
  intros Hfg. induction s as [|c s IH]; simpl; [done|].
  intros [Hc Hs]%andb_prop. by rewrite (Hfg _ Hc), IH.
Qed.




Lemma digits_without c w :
  Str.is_digit c = false -> Str.forallb Str.is_digit w = true -> without c w.
Proof.
  intros Hc. apply forallb_impl. intros x Hx.
  destruct (Ascii.eqb_spec x c) as [->|]; [congruence|done].
Qed.


(** The text before the first occurrence of a character, and the text after
    it, are determined. *)
Lemma split_at_first c u u' v v' :
  without c u -> without c u' ->
  u +:+ String c v = u' +:+ String c v' ->
  u = u' /\ v = v'.
Proof.
  unfold without. revert u'. induction u as [|x u IH]; intros [|x' u'] Hu Hu'.
  - rewrite !append_empty_l. by intros [= ->].
  - rewrite append_empty_l, append_cons. intros [= <- _]. simpl in Hu'.
    by rewrite Ascii.eqb_refl in Hu'.
  - rewrite append_empty_l, append_cons. intros [= -> _]. simpl in Hu.
    by rewrite Ascii.eqb_refl in Hu.
  - rewrite !append_cons. intros [= -> H]. simpl in Hu, Hu'.
    apply andb_prop in Hu as [_ Hu]. apply andb_prop in Hu' as [_ Hu'].
    destruct (IH _ Hu Hu' H) as [-> ->]. done.
Qed.




Lemma lstrip_white w x : white w -> Str.lstrip (w +:+ x) = Str.lstrip x.
Proof.
  unfold white. induction w as [|c w IH]; [done|]. rewrite append_cons. simpl.
  intros [-> Hw]%andb_prop. by apply IH.
Qed.

Lemma lstrip_all_white w : white w -> Str.lstrip w = EmptyString.
Proof.
  intros Hw. rewrite <- (append_empty_r w). by rewrite lstrip_white.
Qed.

Lemma rstrip_all_white w : white w -> Str.rstrip w = EmptyString.
Proof.
  unfold white. induction w as [|c w IH]; [done|]. simpl.
  intros [-> Hw]%andb_prop. by rewrite IH.
Qed.

Lemma rstrip_white x w : white w -> Str.rstrip (x +:+ w) = Str.rstrip x.
Proof.
  intros Hw. induction x as [|c x IH].
  - rewrite append_empty_l. by apply rstrip_all_white.
  - rewrite append_cons. simpl. by rewrite IH.
Qed.

Lemma lstrip_append x w :
  Str.lstrip (x +:+ w)
  = if Str.forallb Str.is_space x then Str.lstrip w else Str.lstrip x +:+ w.
Proof.
  induction x as [|c x IH]; [done|]. rewrite append_cons. simpl.
  by destruct (Str.is_space c).
Qed.

(** White space around a field does not change what [strip] returns. *)
Lemma strip_padded w1 x w2 :
  white w1 -> white w2 -> Str.strip (w1 +:+ x +:+ w2) = Str.strip x.
Proof.
  intros Hw1 Hw2. unfold Str.strip. rewrite lstrip_white by done.
  rewrite lstrip_append. destruct (Str.forallb Str.is_space x) eqn:Hx.
  - by rewrite !lstrip_all_white.
  - by apply rstrip_white.
Qed.





Lemma contains_cons p c s :
  Str.contains p (String c s) = false ->
  Str.strip_prefix p (String c s) = None /\ Str.contains p s = false.
Proof. simpl. by destruct (Str.strip_prefix p (String c s)). Qed.

Lemma contains_true p s :
  Str.contains p s = true -> exists pre post, s = pre +:+ p +:+ post.
Proof.
  induction s as [|c s IH]; simpl.
  - destruct (Str.strip_prefix p EmptyString) as [post|] eqn:Hp; [|done].
    intros _. apply strip_prefix_spec in Hp. by exists EmptyString, post.
  - destruct (Str.strip_prefix p (String c s)) as [post|] eqn:Hp.
    + intros _. apply strip_prefix_spec in Hp. by exists EmptyString, post.
    + intros (pre & post & ->)%IH. by exists (String c pre), post.
Qed.

Lemma no_elements {X} (l : list X) : (forall x, x ∈ l -> False) -> l = [].
Proof. destruct l as [|x l]; [done|]. intros H. destruct (H x). by left. Qed.

Lemma forallb_false_Exists {X} (f : X -> bool) (P : X -> Prop) (xs : list X) :
  (forall x, f x = false <-> P x) ->
  forallb f xs = false <-> Exists P xs.
Proof.
  intros HP. induction xs as [|x xs IH]; simpl.
  - split; [done|]. by intros ?%Exists_nil.
  - rewrite Exists_cons, <- IH, <- HP. destruct (f x); simpl; intuition congruence.
Qed.

Lemma filter_split_length {X} (f : X -> bool) (l : list X) :
  length (List.filter (fun x => negb (f x)) l)
  = length l - length (List.filter f l)
  /\ length (List.filter f l) <= length l.
Proof.
  induction l as [|x l [IH1 IH2]]; simpl; [done|].
  destruct (f x); simpl; lia.
Qed.

Lemma imap_pairs {X Y} (g : nat -> nat) (f : nat -> X -> Y) (xs : list X) :
  (fun im => f im.1 im.2) <$> imap (fun i x => (g i, x)) xs
  = imap (fun i x => f (g i) x) xs.
Proof.
  revert g. induction xs as [|x xs IH]; intros g; [done|].
  simpl. f_equal. exact (IH (g ∘ S)).
Qed.

Lemma imap_enumerate {X Y} (f : nat -> X -> Y) (xs : list X) :
  (fun im => f im.1 im.2) <$> enumerate xs = imap f xs.
Proof. exact (imap_pairs id f xs). Qed.

(** ** The matcher returns matches of the pattern *)

(** Whatever the matcher consumes is a prefix of the text. *)
Lemma denotes_suffix fl r s s' cs cs' :
  denotes fl r s s' cs cs' -> exists w, s = w +:+ s'.
Proof.
  revert s s' cs cs'. induction r; intros s0 s' cs cs'; simpl.
  - intros [-> _]. by eexists.
  - intros (w & -> & _). by eexists.
  - intros (s1 & cs1 & [w1 ->]%IHr1 & [w2 ->]%IHr2).
    exists (w1 +:+ w2). by rewrite append_assoc.
  - intros [H|H]; eauto.
  - intros (w & _ & -> & _). by eexists.
  - intros [-> _]. by exists EmptyString.
  - intros [-> _]. by exists EmptyString.
Qed.

Section Soundness.
Context {A : Type}.
Variable fl : re.flags.

Lemma rep_greedy_sound k min s (kont : string -> option A) x :
  re.rep_greedy fl k min s kont = Some x ->
  exists w s', s = w +:+ s'
    /\ Str.forallb (re.class_match fl k) w = true
    /\ min <= String.length w /\ kont s' = Some x.
Proof.
  revert min. induction s as [|c s IH]; intros min; simpl.
  - destruct min; [|done]. intros H. exists EmptyString, EmptyString.
    repeat split; [lia|done].
  - assert (Hstop : match min with 0 => kont (String c s) | _ => None end = Some x ->
              exists w s', String c s = w +:+ s'
               /\ Str.forallb (re.class_match fl k) w = true
               /\ min <= String.length w /\ kont s' = Some x).
    { destruct min; [|done]. intros H. exists EmptyString, (String c s).
      repeat split; [lia|done]. }
    destruct (re.class_match fl k c) eqn:Hc; [|done].
    destruct (re.rep_greedy fl k (pred min) s kont) eqn:Hrec; [|done].
    intros [= ->]. destruct (IH _ Hrec) as (w & s' & -> & Hw & Hmin & Hk).
    exists (String c w), s'. rewrite append_cons. simpl. rewrite Hc, Hw.
    repeat split; [lia|done].
Qed.

Lemma rep_lazy_sound k min s (kont : string -> option A) x :
  re.rep_lazy fl k min s kont = Some x ->
  exists w s', s = w +:+ s'
    /\ Str.forallb (re.class_match fl k) w = true
    /\ min <= String.length w /\ kont s' = Some x.
Proof.
  revert min. induction s as [|c s IH]; intros min.
  - destruct min; simpl; [|done]. destruct (kont EmptyString) eqn:Hk; [|done].
    intros [= ->]. exists EmptyString, EmptyString. repeat split; [lia|done].
  - assert (Hmore : (if re.class_match fl k c
                     then re.rep_lazy fl k (pred min) s kont else None) = Some x ->
              exists w s', String c s = w +:+ s'
               /\ Str.forallb (re.class_match fl k) w = true
               /\ min <= String.length w /\ kont s' = Some x).
    { destruct (re.class_match fl k c) eqn:Hc; [|done]. intros Hrec.
      destruct (IH _ Hrec) as (w & s' & -> & Hw & Hmin & Hk).
      exists (String c w), s'. rewrite append_cons. simpl. rewrite Hc, Hw.
      repeat split; [lia|done]. }
    destruct min; simpl; [|exact Hmore].
    destruct (kont (String c s)) eqn:Hk; [|exact Hmore].
    intros [= ->]. exists EmptyString, (String c s). repeat split; [lia|done].
Qed.

End Soundness.

Lemma exec_sound {A} fl r s cs (kont : string -> re.captures -> option A) x :
  re.exec fl r s cs kont = Some x ->
  exists s' cs', denotes fl r s s' cs cs' /\ kont s' cs' = Some x.
Proof.
  revert A s cs kont x. induction r; intros A s0 cs kont x; simpl.
  - destruct (Str.strip_prefix s s0) as [s'|] eqn:Hp; [|done].
    apply strip_prefix_spec in Hp. intros H. by exists s', cs.
  - destruct greedy.
    + intros (w & s' & -> & Hw & Hmin & Hk)%rep_greedy_sound.
      exists s', cs. split; [|done]. by exists w.
    + intros (w & s' & -> & Hw & Hmin & Hk)%rep_lazy_sound.
      exists s', cs. split; [|done]. by exists w.
  - intros (s1 & cs1 & H1 & (s2 & cs2 & H2 & Hk)%IHr2)%IHr1.
    exists s2, cs2. split; [|done]. by exists s1, cs1.
  - destruct (re.exec fl r1 s0 cs kont) eqn:H1.
    + intros [= ->]. apply IHr1 in H1 as (s' & cs' & H1 & Hk).
      exists s', cs'. split; [by left|done].
    + intros (s' & cs' & H2 & Hk)%IHr2. exists s', cs'. split; [by right|done].
  - intros (s' & cs' & H & Hk)%IHr.
    destruct (denotes_suffix _ _ _ _ _ _ H) as [w ->].
    rewrite take_append in Hk. eexists s', _. split; [|exact Hk].
    by exists w, cs'.
  - destruct (re.exec fl r s0 cs _) as [cs'|] eqn:H; [|done].
    apply IHr in H as (s1 & cs1 & H & [= ->]).
    intros Hk. exists s0, cs'. split; [|done]. split; [done|]. by exists s1.
  - destruct (re.at_dollar fl s0) eqn:Hd; [|done].
    intros Hk. by exists s0, cs.
Qed.

Lemma match_here_sound fl r s pos m :
  re.match_here fl r s pos = Some m ->
  exists body post, s = body +:+ post
    /\ denotes fl r s post [] (re.m_groups m)
    /\ re.m_start m = pos
    /\ re.m_end m = pos + String.length body.
Proof.
  unfold re.match_here. intros (s' & cs' & H & [= <-])%exec_sound.
  destruct (denotes_suffix _ _ _ _ _ _ H) as [w ->].
  exists w, s'. rewrite length_append. simpl.
  repeat split; [done|lia].
Qed.

Lemma search_from_sound fl r s pos m :
  re.search_from fl r s pos = Some m ->
  exists pre body post, s = pre +:+ body +:+ post
    /\ denotes fl r (body +:+ post) post [] (re.m_groups m)
    /\ re.m_start m = pos + String.length pre
    /\ re.m_end m = re.m_start m + String.length body.
Proof.
  revert pos. induction s as [|c s IH]; intros pos; simpl.
  - destruct (re.match_here fl r EmptyString pos) eqn:Hm; [|done].
    intros [= ->]. apply match_here_sound in Hm as (b & p & Hs & Hd & Hst & Hen).
    exists EmptyString, b, p. rewrite append_empty_l, <- Hs. simpl.
    repeat split; [done|lia|lia].
  - destruct (re.match_here fl r (String c s) pos) eqn:Hm.
    + intros [= ->].
      apply match_here_sound in Hm as (b & p & Hs & Hd & Hst & Hen).
      exists EmptyString, b, p. rewrite append_empty_l, <- Hs. simpl.
      repeat split; [done|lia|lia].
    + intros (pre & b & p & -> & Hd & Hst & Hen)%IH.
      exists (String c pre), b, p. rewrite append_cons. simpl.
      repeat split; [done|lia|lia].
Qed.

Lemma finditer_from_sound fuel fl r s pos m :
  m ∈ re.finditer_from fuel fl r s pos -> found_in fl r s m.
Proof.
  revert s pos. induction fuel as [|fuel IH]; intros s pos; simpl.
  - by intros ?%elem_of_nil.
  - destruct (re.search_from fl r s pos) as [m0|] eqn:Hs;
      [|by intros ?%elem_of_nil].
    intros [->|Hin]%elem_of_cons.
    + apply search_from_sound in Hs as (pre & b & p & -> & Hd & _).
      by exists pre, b, p.
    + apply IH in Hin as (pre & b & p & Hdrop & Hd).
      destruct (drop_suffix (re.m_end m0 - pos) s) as [pre0 Hpre0].
      exists (pre0 +:+ pre), b, p. split; [|done].
      by rewrite append_assoc, <- Hdrop.
Qed.

Lemma findall_sound fl r s g :
  g ∈ re.findall fl r s ->
  exists pre body post,
    s = pre +:+ body +:+ post /\ denotes fl r (body +:+ post) post [] g.
Proof.
  unfold re.findall, re.finditer.
  intros (m & -> & Hin)%list_elem_of_fmap.
  by apply finditer_from_sound in Hin.
Qed.

Lemma search_from_here fl r s pos m :
  re.match_here fl r s pos = Some m -> re.search_from fl r s pos = Some m.
Proof. intros H. destruct s; simpl; by rewrite H. Qed.

(** [search] returns the match at the leftmost position that has one. *)
Lemma search_from_leftmost fl r s pos m :
  re.search_from fl r s pos = Some m ->
  exists pre rest,
    s = pre +:+ rest
    /\ re.match_here fl r rest (pos + String.length pre) = Some m
    /\ forall q, q < String.length pre ->
         re.match_here fl r (Str.drop q s) (pos + q) = None.
Proof.
  revert pos. induction s as [|c s IH]; intros pos; simpl.
  - destruct (re.match_here fl r EmptyString pos) eqn:Hm; [|done].
    intros [= ->]. exists EmptyString, EmptyString. simpl.
    rewrite Nat.add_0_r. repeat split; [done|]. intros q. lia.
  - destruct (re.match_here fl r (String c s) pos) eqn:Hm.
    + intros [= ->]. exists EmptyString, (String c s). simpl.
      rewrite Nat.add_0_r. repeat split; [done|]. intros q. lia.
    + intros (pre & rest & -> & Hrest & Hleft)%IH.
      exists (String c pre), rest. rewrite append_cons. simpl.
      rewrite <- Nat.add_succ_comm. repeat split; [done|].
      intros [|q] Hq; simpl.
      * by rewrite Nat.add_0_r.
      * rewrite <- Nat.add_succ_comm. apply Hleft. lia.
Qed.

Lemma search_from_none fl r s pos :
  re.search_from fl r s pos = None ->
  forall q, q <= String.length s ->
    re.match_here fl r (Str.drop q s) (pos + q) = None.
Proof.
  revert pos. induction s as [|c s IH]; intros pos; simpl.
  - destruct (re.match_here fl r EmptyString pos) eqn:Hm; [done|].
    intros _ q Hq. assert (q = 0) as -> by lia. simpl. by rewrite Nat.add_0_r.
  - destruct (re.match_here fl r (String c s) pos) eqn:Hm; [done|].
    intros Hs [|q] Hq; simpl.
    + by rewrite Nat.add_0_r.
    + rewrite <- Nat.add_succ_comm. apply IH; [done|lia].
Qed.


(** ** The matcher finds a match whenever there is one *)

Lemma denotes_groupless fl r s s' cs cs' :
  groupless r = true -> denotes fl r s s' cs cs' -> cs' = cs.
Proof.
  revert s s' cs cs'. induction r; intros s0 s' cs cs'; simpl; try done.
  - by intros _ [_ ->].
  - by intros _ (w & _ & _ & _ & ->).
  - intros [H1 H2]%andb_prop (s1 & cs1 & ->%IHr1 & ->%IHr2); done.
  - intros [H1 H2]%andb_prop [H|H]; eauto.
  - intros Hg [_ [s1 H]]. eauto.
  - by intros _ (_ & -> & _).
Qed.

Lemma groupless_plain r : groupless r = true -> plain_lookaheads r = true.
Proof.
  induction r; simpl; try done.
  - intros [H1 H2]%andb_prop. by rewrite IHr1, IHr2.
  - intros [H1 H2]%andb_prop. by rewrite IHr1, IHr2.
Qed.

Section Completeness.
Context {A : Type}.
Variable fl : re.flags.

Lemma rep_greedy_complete k min w s (kont : string -> option A) :
  Str.forallb (re.class_match fl k) w = true ->
  min <= String.length w ->
  kont s <> None ->
  re.rep_greedy fl k min (w +:+ s) kont <> None.
Proof.
  revert min. induction w as [|c w IH]; intros min Hw Hmin Hk.
  - simpl in Hmin. assert (min = 0) as -> by lia. rewrite append_empty_l.
    destruct s as [|c s]; simpl; [done|].
    destruct (re.class_match fl k c); [|done].
    by destruct (re.rep_greedy fl k 0 s kont).
  - rewrite append_cons. simpl in *. apply andb_prop in Hw as [-> Hw].
    specialize (IH (pred min) Hw ltac:(lia) Hk).
    by destruct (re.rep_greedy fl k (pred min) (w +:+ s) kont).
Qed.

Lemma rep_lazy_complete k min w s (kont : string -> option A) :
  Str.forallb (re.class_match fl k) w = true ->
  min <= String.length w ->
  kont s <> None ->
  re.rep_lazy fl k min (w +:+ s) kont <> None.
Proof.
  revert min. induction w as [|c w IH]; intros min Hw Hmin Hk.
  - simpl in Hmin. assert (min = 0) as -> by lia. rewrite append_empty_l.
    destruct s as [|c s]; simpl; by destruct (kont _).
  - rewrite append_cons. simpl in Hw, Hmin. apply andb_prop in Hw as [Hc Hw].
    specialize (IH (pred min) Hw ltac:(lia) Hk).
    destruct min; simpl in *; rewrite Hc; [|done].
    by destruct (kont (String c (w +:+ s))).
Qed.

End Completeness.

Lemma exec_complete {A} fl r s s' cs cs'
    (kont : string -> re.captures -> option A) :
  plain_lookaheads r = true ->
  denotes fl r s s' cs cs' ->
  kont s' cs' <> None ->
  re.exec fl r s cs kont <> None.
Proof.
  revert A s s' cs cs' kont.
  induction r; intros A s0 s' cs cs' kont Hplain; simpl in *.
  - intros [-> ->] Hk. by rewrite strip_prefix_append.
  - intros (w & -> & Hw & Hmin & ->) Hk. destruct greedy.
    + by apply rep_greedy_complete.
    + by apply rep_lazy_complete.
  - apply andb_prop in Hplain as [Hp1 Hp2].
    intros (s1 & cs1 & H1 & H2) Hk.
    eapply IHr1; [done|exact H1|]. by eapply IHr2.
  - apply andb_prop in Hplain as [Hp1 Hp2].
    intros [H|H] Hk.
    + specialize (IHr1 A _ _ _ _ kont Hp1 H Hk).
      by destruct (re.exec fl r1 s0 cs kont).
    + specialize (IHr2 A _ _ _ _ kont Hp2 H Hk).
      by destruct (re.exec fl r1 s0 cs kont).
  - intros (w & cs1 & -> & H & ->) Hk.
    eapply IHr; [done|exact H|]. by rewrite take_append.
  - intros [-> [s1 H]] Hk.
    pose proof (denotes_groupless _ _ _ _ _ _ Hplain H) as ->.
    assert (Hin : re.exec fl r s0 cs (fun _ cs' => Some cs') <> None).
    { eapply IHr; [by apply groupless_plain|exact H|done]. }
    destruct (re.exec fl r s0 cs _) as [cs1|] eqn:He; [|done].
    apply exec_sound in He as (s2 & cs2 & H2 & [= ->]).
    by rewrite (denotes_groupless _ _ _ _ _ _ Hplain H2).
  - intros (-> & -> & ->) Hk. done.
Qed.



(** ** The shapes of the patterns *)

Section Shapes.
Variable fl : re.flags.

Lemma denotes_lit p R s s' cs cs' :
  denotes fl (re.Cat (re.Lit p) R) s s' cs cs' ->
  exists s1, s = p +:+ s1 /\ denotes fl R s1 s' cs cs'.
Proof. intros (s1 & cs1 & [-> ->] & H). by exists s1. Qed.

Lemma denotes_space R s s' cs cs' :
  denotes fl (re.Cat (re.star re.c_space) R) s s' cs cs' ->
  exists w s1, white w /\ s = w +:+ s1 /\ denotes fl R s1 s' cs cs'.
Proof. intros (s1 & cs1 & (w & -> & Hw & _ & ->) & H). by exists w, s1. Qed.

Lemma denotes_bar R s s' cs cs' :
  denotes fl (re.Cat (re.star re.c_space)
                (re.Cat (re.Lit "|") (re.Cat (re.star re.c_space) R)))
    s s' cs cs' ->
  exists w1 w2 s1,
    white w1 /\ white w2 /\ s = w1 +:+ "|" +:+ w2 +:+ s1
    /\ denotes fl R s1 s' cs cs'.
Proof.
  intros (w1 & s1 & Hw1 & -> & (s2 & -> & (w2 & s3 & Hw2 & -> & H)%denotes_space)
            %denotes_lit)%denotes_space.
  by exists w1, w2, s3.
Qed.

Lemma denotes_group n k min greedy R s s' cs cs' :
  denotes fl (re.Cat (re.Group n (re.Rep k min greedy)) R) s s' cs cs' ->
  exists w s1,
    Str.forallb (re.class_match fl k) w = true /\ min <= String.length w
    /\ s = w +:+ s1 /\ denotes fl R s1 s' ((n, w) :: cs) cs'.
Proof.
  intros (s1 & cs1 & (w & cs2 & -> & (w' & Hw' & Hc & Hmin & ->) & ->) & H).
  apply append_inv_tail in Hw' as <-. by exists w, s1.
Qed.

End Shapes.

Section ShapesIntro.
Variable fl : re.flags.

Lemma denotes_lit_intro p R s1 s' cs cs' :
  denotes fl R s1 s' cs cs' ->
  denotes fl (re.Cat (re.Lit p) R) (p +:+ s1) s' cs cs'.
Proof. intros H. by exists s1, cs. Qed.



Lemma denotes_group_intro n k min greedy R w s1 s' cs cs' :
  Str.forallb (re.class_match fl k) w = true ->
  min <= String.length w ->
  denotes fl R s1 s' ((n, w) :: cs) cs' ->
  denotes fl (re.Cat (re.Group n (re.Rep k min greedy)) R) (w +:+ s1) s' cs cs'.
Proof.
  intros Hw Hmin H. exists s1, ((n, w) :: cs). split; [|done].
  exists w, cs. repeat split. by exists w.
Qed.

End ShapesIntro.

Lemma chunk_pattern_shape s s' g :
  denotes re.no_flags chunk_pattern s s' [] g <->
  exists d, digits d /\ s = marker d +:+ s' /\ g = [(1, d)].
Proof.
  unfold chunk_pattern. cbn [re.cat]. split.
  - intros (s1 & -> & H)%denotes_lit.
    apply denotes_group in H as (d & s2 & Hd & Hlen & -> & [-> ->]).
    exists d. split; [|split; [|done]].
    + split; [done|]. intros ->. simpl in Hlen. lia.
    + unfold marker. by rewrite !append_assoc.
  - intros (d & [Hd Hne] & -> & ->). unfold marker. rewrite !append_assoc.
    apply denotes_lit_intro. apply denotes_group_intro; [done| |done].
    destruct d; [done|simpl; lia].
Qed.

Lemma entity_pattern_shape body post g :
  denotes re.M entity_pattern (body +:+ post) post [] g ->
  exists name type description,
    g = [(3, description); (2, type); (1, name)]
    /\ entity_record name type description body
    /\ entity_follow post.
Proof.
  unfold entity_pattern, bar. cbn [app re.cat].
  intros (s1 & Hs & H)%denotes_lit.
  apply denotes_bar in H as (w1 & w2 & s2 & Hw1 & Hw2 & -> & H).
  apply denotes_group in H as (n & s3 & Hn & _ & -> & H).
  apply denotes_bar in H as (w3 & w4 & s4 & Hw3 & Hw4 & -> & H).
  apply denotes_group in H as (t & s5 & Ht & _ & -> & H).
  apply denotes_bar in H as (w5 & w6 & s6 & Hw5 & Hw6 & -> & H).
  apply denotes_group in H as (d & s7 & Hd & _ & -> & H).
  apply denotes_space in H as (w7 & s8 & Hw7 & -> & H).
  apply denotes_lit in H as (s9 & -> & H).
  destruct H as [<- [s10 H]].
  exists n, t, d.
  assert (Hg : g = [(3, d); (2, t); (1, n)] /\ entity_follow post).
  { destruct H as [H|H].
    - destruct H as (s11 & cs & (w & Hpost & Hw & _ & Hcs) & _ & Hg & Hdollar).
      split; [congruence|]. exists w, s11. split; [done|]. split; [done|by left].
    - destruct H as (s11 & cs & (w & Hpost & Hw & _ & Hcs) & Hparen & Hg).
      split; [congruence|]. exists w, s11.
      split; [done|]. split; [done|]. right. by eexists. }
  destruct Hg as [-> Hfollow]. split; [done|]. split; [|done].
  repeat split; [done..|].
  exists w1, w2, w3, w4, w5, w6, w7. split; [by repeat constructor|].
  apply (append_inv_tail _ _ post). rewrite Hs.
  by rewrite !append_assoc.
Qed.


Lemma relation_pattern_shape body post g :
  denotes re.M relation_pattern (body +:+ post) post [] g ->
  exists src tgt description weight keywords,
    g = [(5, keywords); (4, weight); (3, description); (2, tgt); (1, src)]
    /\ relationship_record src tgt description weight keywords body.
Proof.
  unfold relation_pattern, bar. cbn [app re.cat].
  intros (s1 & Hs & H)%denotes_lit.
  apply denotes_bar in H as (w1 & w2 & s2 & Hw1 & Hw2 & -> & H).
  apply denotes_group in H as (src & s3 & Hsrc & _ & -> & H).
  apply denotes_bar in H as (w3 & w4 & s4 & Hw3 & Hw4 & -> & H).
  apply denotes_group in H as (tgt & s5 & Htgt & _ & -> & H).
  apply denotes_bar in H as (w5 & w6 & s6 & Hw5 & Hw6 & -> & H).
  apply denotes_group in H as (d & s7 & Hd & _ & -> & H).
  apply denotes_bar in H as (w7 & w8 & s8 & Hw7 & Hw8 & -> & H).
  apply denotes_group in H as (wt & s9 & Hwt & Hlen & -> & H).
  apply denotes_bar in H as (w9 & w10 & s10 & Hw9 & Hw10 & -> & H).
  apply denotes_group in H as (kw & s11 & Hkw & _ & -> & H).
  apply denotes_space in H as (w11 & s12 & Hw11 & -> & H).
  destruct H as [-> ->].
  exists src, tgt, d, wt, kw. split; [done|].
  repeat split; [done..| |done|].
  - intros ->. simpl in Hlen. lia.
  - exists w1, w2, w3, w4, w5, w6, w7, w8, w9, w10, w11.
    split; [by repeat constructor|].
    apply (append_inv_tail _ _ post). rewrite Hs.
    by rewrite !append_assoc.
Qed.


(** ** The validator *)

Lemma falsy_empty (s : string) : falsy s = true <-> s = EmptyString.
Proof. by destruct s. Qed.

Lemma entity_ok_spec (e : Entity.t) :
  entity_ok e = false <->
  Entity.entity_name e = EmptyString \/ Entity.entity_type e = EmptyString.
Proof.
  unfold entity_ok. rewrite <- !falsy_empty.
  destruct (falsy (Entity.entity_name e)), (falsy (Entity.entity_type e));
    simpl; intuition congruence.
Qed.

Lemma relationship_ok_spec (r : Relationship.t) :
  relationship_ok r = false <->
  Relationship.src_id r = EmptyString \/ Relationship.tgt_id r = EmptyString.
Proof.
  unfold relationship_ok. rewrite <- !falsy_empty.
  destruct (falsy (Relationship.src_id r)), (falsy (Relationship.tgt_id r));
    simpl; intuition congruence.
Qed.

Lemma check_entity_ok (e : Entity.t) (names : gset string) :
  entity_ok e = true ->
  check_entity e names = ([], inr (names ∪ {[Entity.entity_name e]})).
Proof.
  unfold entity_ok, check_entity. intros [Hn Ht]%andb_prop.
  destruct (falsy (Entity.entity_name e)); [done|].
  by destruct (falsy (Entity.entity_type e)).
Qed.

Lemma check_entity_bad (e : Entity.t) (names : gset string) :
  entity_ok e = false ->
  exists l msg, check_entity e names = (l, inl (ValueError msg))
    /\ Forall other_record l.
Proof.
  unfold entity_ok, check_entity. intros H.
  destruct (falsy (Entity.entity_name e)).
  { eexists _, _. split; [reflexivity|]. by repeat constructor. }
  destruct (falsy (Entity.entity_type e)); [|done].
  eexists _, _. split; [reflexivity|]. by repeat constructor.
Qed.

(** The loop over the entities: it collects the names when every entity
    passes, and raises at the first one that does not. *)
Lemma check_entities_ok (es : list Entity.t) (names : gset string) :
  forallb entity_ok es = true ->
  for_each es check_entity names = ([], inr (names ∪ names_of es)).
Proof.
  revert names. induction es as [|e es IH]; intros names H.
  - simpl. rewrite mret_eq. do 2 f_equal. unfold names_of. simpl. set_solver.
  - apply andb_prop in H as [He Hes]. rewrite for_each_cons.
    rewrite (check_entity_ok _ _ He), bind_return, (IH _ Hes). simpl.
    do 2 f_equal. unfold names_of. simpl. set_solver.
Qed.

Lemma check_entities_bad (es : list Entity.t) (names : gset string) :
  forallb entity_ok es = false ->
  exists l msg, for_each es check_entity names = (l, inl (ValueError msg))
    /\ Forall other_record l.
Proof.
  revert names. induction es as [|e es IH]; intros names H; [done|].
  rewrite for_each_cons. simpl in H.
  destruct (entity_ok e) eqn:He; simpl in H.
  - rewrite (check_entity_ok _ _ He), bind_return.
    destruct (IH (names ∪ {[Entity.entity_name e]}) H) as (l & msg & -> & Hl).
    by eexists _, _.
  - destruct (check_entity_bad e names He) as (l & msg & -> & Hl).
    by eexists _, _.
Qed.

Lemma check_relationship_ok (names : gset string) (r : Relationship.t)
    (missing : gset string) :
  relationship_ok r = true ->
  exists l,
    check_relationship names r missing
    = (l, inr (missing ∪ ({[Relationship.src_id r; Relationship.tgt_id r]} ∖ names)))
    /\ Forall other_record l.
Proof.
  unfold relationship_ok, check_relationship. intros [Hs Ht]%andb_prop.
  destruct (falsy (Relationship.src_id r)); [done|].
  destruct (falsy (Relationship.tgt_id r)); [done|].
  set (m2 := if decide (Relationship.tgt_id r ∈ names) then _ else _).
  assert (Hm2 : m2 = missing ∪
            ({[Relationship.src_id r; Relationship.tgt_id r]} ∖ names)).
  { subst m2. repeat case_decide; set_solver. }
  destruct (falsy (Relationship.keywords r)).
  - rewrite bind_logger, mret_eq. simpl. eexists.
    split; [by rewrite Hm2|]. by constructor.
  - rewrite bind_mret, mret_eq. eexists. split; [by rewrite Hm2|done].
Qed.

Lemma check_relationship_bad (names : gset string) (r : Relationship.t)
    (missing : gset string) :
  relationship_ok r = false ->
  exists l msg,
    check_relationship names r missing = (l, inl (ValueError msg))
    /\ Forall other_record l.
Proof.
  unfold relationship_ok, check_relationship. intros H.
  destruct (falsy (Relationship.src_id r)).
  { eexists _, _. split; [reflexivity|]. by repeat constructor. }
  destruct (falsy (Relationship.tgt_id r)); [|done].
  eexists _, _. split; [reflexivity|]. by repeat constructor.
Qed.

Lemma check_relationships_ok (names : gset string) (rs : list Relationship.t)
    (missing : gset string) :
  forallb relationship_ok rs = true ->
  exists l,
    for_each rs (check_relationship names) missing
    = (l, inr (missing ∪ (endpoints_of rs ∖ names)))
    /\ Forall other_record l.
Proof.
  revert missing. induction rs as [|r rs IH]; intros missing H.
  - exists []. split; [|done]. simpl. rewrite mret_eq. do 2 f_equal.
    unfold endpoints_of. simpl. set_solver.
  - apply andb_prop in H as [Hr Hrs]. rewrite for_each_cons.
    destruct (check_relationship_ok names r missing Hr) as (l1 & -> & Hl1).
    rewrite bind_return.
    destruct (IH (missing ∪ ({[Relationship.src_id r; Relationship.tgt_id r]}
                               ∖ names)) Hrs) as (l2 & -> & Hl2).
    simpl. exists (l1 ++ l2). split; [|by apply Forall_app].
    do 2 f_equal. unfold endpoints_of. simpl. set_solver.
Qed.

Lemma check_relationships_bad (names : gset string) (rs : list Relationship.t)
    (missing : gset string) :
  forallb relationship_ok rs = false ->
  exists l msg,
    for_each rs (check_relationship names) missing = (l, inl (ValueError msg))
    /\ Forall other_record l.
Proof.
  revert missing. induction rs as [|r rs IH]; intros missing H; [done|].
  rewrite for_each_cons. simpl in H.
  destruct (relationship_ok r) eqn:Hr; simpl in H.
  - destruct (check_relationship_ok names r missing Hr) as (l1 & -> & Hl1).
    rewrite bind_return.
    destruct (IH (missing ∪ ({[Relationship.src_id r; Relationship.tgt_id r]}
                               ∖ names)) H) as (l2 & msg & -> & Hl2).
    simpl. eexists _, _. split; [reflexivity|].
    by apply Forall_app.
  - destruct (check_relationship_bad names r missing Hr) as (l & msg & -> & Hl).
    by eexists _, _.
Qed.

Lemma chunk_verdict_eq (cs : list Chunk.t) :
  match cs with
  | [] => logger ERROR no_chunks;; raise (ValueError "No chunks found")
  | _ :: _ => logger INFO (chunks_valid (length cs))
  end = chunk_verdict cs.
Proof. by destruct cs. Qed.

Lemma validate_bad_entities es rs cs :
  forallb entity_ok es = false ->
  exists l msg,
    validate_kg_data es rs cs = (l, inl (ValueError msg))
    /\ Forall other_record l.
Proof.
  intros H. unfold validate_kg_data.
  destruct (check_entities_bad es ∅ H) as (l & msg & -> & Hl).
  by exists l, msg.
Qed.

Lemma validate_bad_relationships es rs cs :
  forallb entity_ok es = true ->
  forallb relationship_ok rs = false ->
  exists l msg,
    validate_kg_data es rs cs
    = ((INFO, entities_valid (size (names_of es))) :: l, inl (ValueError msg))
    /\ Forall other_record l.
Proof.
  intros He Hr. unfold validate_kg_data.
  rewrite (check_entities_ok es ∅ He), (left_id_L ∅ (∪)), bind_return_nil.
  rewrite bind_logger.
  destruct (check_relationships_bad (names_of es) rs ∅ Hr)
    as (l & msg & -> & Hl).
  by exists l, msg.
Qed.

Lemma validate_good_records es rs cs :
  forallb entity_ok es = true ->
  forallb relationship_ok rs = true ->
  exists l,
    validate_kg_data es rs cs
    = ((INFO, entities_valid (size (names_of es))) :: l
         ++ reference_report (missing_references es rs) :: (chunk_verdict cs).1,
       (chunk_verdict cs).2)
    /\ Forall other_record l.
Proof.
  intros He Hr. unfold validate_kg_data.
  rewrite (check_entities_ok es ∅ He), (left_id_L ∅ (∪)), bind_return_nil.
  rewrite bind_logger.
  destruct (check_relationships_ok (names_of es) rs ∅ Hr) as (l & -> & Hl).
  exists l. split; [|done].
  rewrite bind_return, (left_id_L ∅ (∪)). fold (missing_references es rs).
  rewrite chunk_verdict_eq. unfold reference_report.
  case_decide; rewrite bind_logger; by destruct (chunk_verdict cs).
Qed.

(** The validator returns exactly when every record passes and there is a
    chunk; otherwise it raises a [ValueError]. *)
Lemma validate_kg_data_verdict es rs cs :
  (result_of (validate_kg_data es rs cs) = inr tt
   /\ forallb entity_ok es = true /\ forallb relationship_ok rs = true
   /\ cs <> [])
  \/ ((exists msg, result_of (validate_kg_data es rs cs) = inl (ValueError msg))
      /\ (forallb entity_ok es = false \/ forallb relationship_ok rs = false
          \/ cs = [])).
Proof.
  destruct (forallb entity_ok es) eqn:He.
  2:{ right. destruct (validate_bad_entities es rs cs He) as (l & msg & -> & _).
      split; [by exists msg|by left]. }
  destruct (forallb relationship_ok rs) eqn:Hr.
  2:{ right.
      destruct (validate_bad_relationships es rs cs He Hr)
        as (l & msg & -> & _).
      split; [by exists msg|by right; left]. }
  destruct (validate_good_records es rs cs He Hr) as (l & -> & _).
  destruct cs as [|c cs].
  - right. split; [by eexists|by right; right].
  - by left.
Qed.

Lemma validate_kg_data_raises_iff es rs cs :
  (exists msg, result_of (validate_kg_data es rs cs) = inl (ValueError msg))
  <-> integrity_violation {| entities := es; relationships := rs; chunks := cs |}.
Proof.
  unfold integrity_violation. simpl.
  rewrite <- (forallb_false_Exists entity_ok) by apply entity_ok_spec.
  rewrite <- (forallb_false_Exists relationship_ok) by apply relationship_ok_spec.
  destruct (validate_kg_data_verdict es rs cs)
    as [(Hr & He & Hrs & Hcs)|[Hr Hv]].
  - rewrite Hr, He, Hrs. split; [by intros [? ?]|]. by intros [|[|]].
  - done.
Qed.

Lemma validate_kg_data_returns_iff es rs cs :
  result_of (validate_kg_data es rs cs) = inr tt
  <-> ~ integrity_violation {| entities := es; relationships := rs; chunks := cs |}.
Proof.
  rewrite <- validate_kg_data_raises_iff.
  destruct (validate_kg_data_verdict es rs cs) as [(Hr & _)|[[msg Hr] _]];
    rewrite Hr.
  - split; [|done]. by intros _ [? ?].
  - split; [done|]. intros []. by exists msg.
Qed.

Lemma other_record_not_report (l : list (level * kg_message)) lv m :
  Forall other_record l -> (lv, undefined_entities m) ∈ l -> False.
Proof.
  intros Hl Hin. rewrite Forall_forall in Hl. exact (Hl _ Hin).
Qed.

Lemma reference_report_inv missing lv m :
  (lv, undefined_entities m) = reference_report missing ->
  lv = WARNING /\ m = missing /\ missing <> ∅.
Proof. unfold reference_report. case_decide; intros [=]; by subst. Qed.

Lemma validate_log_report es rs cs lv m :
  (lv, undefined_entities m) ∈ log_of (validate_kg_data es rs cs) ->
  lv = WARNING /\ m = missing_references es rs.
Proof.
  destruct (forallb entity_ok es) eqn:He.
  2:{ destruct (validate_bad_entities es rs cs He) as (l & msg & -> & Hl).
      intros Hin. by destruct (other_record_not_report _ _ _ Hl Hin). }
  destruct (forallb relationship_ok rs) eqn:Hr.
  2:{ destruct (validate_bad_relationships es rs cs He Hr)
        as (l & msg & -> & Hl).
      cbn [log_of fst]. intros [[=]|Hin]%elem_of_cons.
      by destruct (other_record_not_report _ _ _ Hl Hin). }
  destruct (validate_good_records es rs cs He Hr) as (l & -> & Hl).
  cbn [log_of fst]. intros [[=]|Hin]%elem_of_cons.
  apply elem_of_app in Hin as [Hin|Hin].
  { by destruct (other_record_not_report _ _ _ Hl Hin). }
  apply elem_of_cons in Hin as [Hin|Hin].
  { by apply reference_report_inv in Hin as (-> & -> & _). }
  destruct cs; cbn [chunk_verdict fst] in Hin;
    by apply list_elem_of_singleton in Hin.
Qed.

(** ** The accumulation loop *)

Lemma kg_app_empty_r (a : kg_data) : kg_app a empty_kg = a.
Proof. destruct a. unfold kg_app. simpl. by rewrite !app_nil_r. Qed.

Lemma kg_app_assoc (a b c : kg_data) :
  kg_app (kg_app a b) c = kg_app a (kg_app b c).
Proof. unfold kg_app. simpl. by rewrite !app_assoc. Qed.

Lemma kg_concat_cons (a : kg_data) (l : list kg_data) :
  kg_concat (a :: l) = kg_app a (kg_concat l).
Proof. reflexivity. Qed.

(** One turn of the loop never raises: it skips an empty segment and
    otherwise appends the segment's contribution. *)
Lemma process_chunk_result full_text matches idx m st :
  result_of (process_chunk full_text matches (idx, m) st) =
  inr (let seg := segment_of full_text matches idx m in
       if falsy seg.2 then st else kg_app st (contribution seg)).
Proof.
  unfold process_chunk, segment_of. cbv beta iota zeta. cbn [fst snd].
  destruct (falsy (chunk_text_of full_text matches idx m)).
  - by rewrite bind_logger.
  - unfold kg_app, contribution. cbn [fst snd entities relationships chunks].
    destruct (extract_chunk _ _ _) as [c|];
      rewrite bind_logger, mret_eq; cbn [log_of result_of fst snd];
      rewrite bind_return, mret_eq; cbn [result_of snd option_list];
      by rewrite ?app_nil_r.
Qed.

Lemma for_each_process_chunk full_text matches (ims : list (nat * re.Match)) st :
  result_of (for_each ims (process_chunk full_text matches) st) =
  inr (kg_app st (kg_concat (contribution <$>
         List.filter (fun seg => negb (falsy seg.2))
           ((fun im => segment_of full_text matches im.1 im.2) <$> ims)))).
Proof.
  revert st. induction ims as [|[idx m] ims IH]; intros st.
  - simpl. by rewrite kg_app_empty_r.
  - rewrite for_each_cons, result_bind, process_chunk_result. cbv zeta.
    rewrite IH. rewrite fmap_cons. simpl List.filter.
    change ((segment_of full_text matches idx m).2)
      with (chunk_text_of full_text matches idx m).
    destruct (falsy (chunk_text_of full_text matches idx m)); simpl negb;
      cbv iota.
    + done.
    + by rewrite fmap_cons, kg_concat_cons, kg_app_assoc.
Qed.

Lemma extract_kg_result full_text :
  result_of (extract_kg full_text) = inr (extracted full_text).
Proof.
  unfold extract_kg. rewrite bind_logger. unfold result_of at 1. simpl.
  rewrite for_each_process_chunk, imap_enumerate.
  unfold extracted, processed, segments, markers.
  by destruct (kg_concat _).
Qed.

Lemma parse_kg_from_txt_eq full_text :
  parse_kg_from_txt full_text =
  let kg := extracted full_text in
  let v := validate_kg_data (entities kg) (relationships kg) (chunks kg) in
  (log_of (extract_kg full_text)
     ++ (INFO, parse_done (length (entities kg)) (length (relationships kg))
                 (length (chunks kg))) :: log_of v,
   match result_of v with
   | inl e => inl e
   | inr _ => inr kg
   end).
Proof.
  unfold parse_kg_from_txt. cbv zeta.
  rewrite (py_eta (extract_kg full_text)), extract_kg_result, bind_return.
  cbn [log_of fst]. rewrite bind_logger. cbn [log_of result_of fst snd].
  f_equal.
  - f_equal. f_equal. rewrite log_bind.
    destruct (result_of (validate_kg_data _ _ _)) as [e|[]].
    + by rewrite app_nil_r.
    + rewrite mret_eq. cbn [log_of fst]. by rewrite app_nil_r.
  - rewrite result_bind.
    by destruct (result_of (validate_kg_data _ _ _)) as [e|[]].
Qed.

Lemma parse_kg_from_txt_result full_text :
  result_of (parse_kg_from_txt full_text) =
  match result_of (validate_kg_data (entities (extracted full_text))
                     (relationships (extracted full_text))
                     (chunks (extracted full_text))) with
  | inl e => inl e
  | inr _ => inr (extracted full_text)
  end.
Proof. by rewrite parse_kg_from_txt_eq. Qed.

Lemma parse_payload full_text payload :
  result_of (parse_kg_from_txt full_text) = inr payload ->
  payload = extracted full_text /\ ~ integrity_violation (extracted full_text).
Proof.
  rewrite parse_kg_from_txt_result.
  set (kg := extracted full_text).
  pose proof (validate_kg_data_returns_iff (entities kg) (relationships kg)
                (chunks kg)) as Hret.
  assert (Hkg : {| entities := entities kg; relationships := relationships kg;
                   chunks := chunks kg |} = kg) by by destruct kg.
  rewrite Hkg in Hret. clear Hkg.
  destruct (result_of (validate_kg_data _ _ _)) as [e|[]]; [done|].
  intros [= <-]. split; [done|]. by apply Hret.
Qed.

(** ** When [parse_kg_from_txt] raises *)


Example scenario_parsed :
  result_of (parse_kg_from_txt scenario_text)
  = inr {| entities := sample_entities;
           relationships := sample_relationships;
           chunks := sample_chunks |}.
Proof. by vm_compute. Qed.

Example no_marker_raises :
  result_of (parse_kg_from_txt "original text: Hello world")
  = inl (ValueError "No chunks found").
Proof. by vm_compute. Qed.

Example empty_entity_name_raises :
  result_of (parse_kg_from_txt
               ("No.: 1 of all the chunks original text: Hello" +:+ linefeed
                +:+ tag "entity" +:+ "||person|A person)"))
  = inl (ValueError "Entity name cannot be empty").
Proof. by vm_compute. Qed.

Example empty_target_raises :
  result_of (parse_kg_from_txt
               ("No.: 1 of all the chunks original text: Hello" +:+ linefeed
                +:+ tag "relationship" +:+ "|Alice| |knows|3|friend)"))
  = inl (ValueError "Target ID cannot be empty").
Proof. by vm_compute. Qed.

(** ** Missing references *)

(** C2.  Once every entity and every relationship has passed the field
    checks, the set of missing references that the validator has computed is
    exactly the endpoints of the relationships minus the names of the
    entities.  It is reported only as a warning: any report of undefined
    entities in the log is a warning carrying that set, a non-empty set is
    reported, and with at least one chunk the validator still returns.  The
    payload that [parse_kg_from_txt] returns has every extracted
    relationship. *)
Theorem missing_references_are_a_warning (es : list Entity.t)
    (rs : list Relationship.t) (cs : list Chunk.t) :
  forallb entity_ok es = true ->
  forallb relationship_ok rs = true ->
  result_of (for_each rs (check_relationship (names_of es)) ∅)
  = inr (endpoints_of rs ∖ names_of es)
  /\ (forall lv m,
        (lv, undefined_entities m) ∈ log_of (validate_kg_data es rs cs) ->
        lv = WARNING /\ m = endpoints_of rs ∖ names_of es)
  /\ (endpoints_of rs ∖ names_of es <> ∅ ->
      (WARNING, undefined_entities (endpoints_of rs ∖ names_of es))
        ∈ log_of (validate_kg_data es rs cs))
  /\ (cs <> [] -> result_of (validate_kg_data es rs cs) = inr tt)
  /\ (forall full_text payload,
        result_of (parse_kg_from_txt full_text) = inr payload ->
        relationships payload = relationships (extracted full_text)).
Proof.
  intros He Hr. repeat split.
  - destruct (check_relationships_ok (names_of es) rs ∅ Hr) as (l & -> & _).
    cbn [result_of snd]. by rewrite (left_id_L ∅ (∪)).
  - by eapply validate_log_report.
  - by eapply validate_log_report.
  - intros Hne.
    destruct (validate_good_records es rs cs He Hr) as (l & -> & _).
    cbn [log_of fst]. apply elem_of_cons. right. apply elem_of_app. right.
    apply elem_of_cons. left. unfold reference_report, missing_references.
    by case_decide.
  - intros Hcs.
    destruct (validate_good_records es rs cs He Hr) as (l & -> & _).
    by destruct cs.
  - intros full_text payload H.
    by destruct (parse_payload full_text payload H) as [-> _].
Qed.

Lemma missing_references_are_a_warning_witness :
  (WARNING, undefined_entities
              (endpoints_of sample_relationships ∖ names_of sample_entities))
    ∈ log_of (validate_kg_data sample_entities sample_relationships sample_chunks)
  /\ result_of (validate_kg_data sample_entities sample_relationships sample_chunks)
     = inr tt.
Proof.
  destruct (missing_references_are_a_warning sample_entities
              sample_relationships sample_chunks eq_refl eq_refl)
    as (_ & _ & Hwarn & Hret & _).
  split; [apply Hwarn|apply Hret]; [|discriminate].
  intros H. apply (f_equal (fun s : gset string => bool_decide ("Bob" ∈ s))) in H.
  vm_compute in H. discriminate H.
Defined.

(** ** The markers and the splitter *)

Lemma match_here_marker s pos m :
  re.match_here re.no_flags chunk_pattern s pos = Some m ->
  exists d rest,
    digits d /\ s = marker d +:+ rest
    /\ m = {| re.m_start := pos; re.m_end := pos + String.length (marker d);
              re.m_groups := [(1, d)] |}.
Proof.
  intros (body & post & -> & Hd & Hst & Hen)%match_here_sound.
  apply chunk_pattern_shape in Hd as (d & Hd & Heq & Hg).
  apply append_inv_tail in Heq as ->.
  exists d, post. split; [done|]. split; [done|].
  destruct m. simpl in *. by subst.
Qed.

Lemma match_here_marker_complete s pos :
  starts_with_marker s -> re.match_here re.no_flags chunk_pattern s pos <> None.
Proof.
  intros (d & rest & Hd & ->). unfold re.match_here.
  eapply exec_complete; [reflexivity| |done].
  apply chunk_pattern_shape. by exists d.
Qed.

(** Markers do not overlap: inside a marker, past its first character, no
    marker starts, since the letter N occurs nowhere else in it. *)
Lemma no_marker_inside d rest q :
  digits d ->
  0 < q < String.length (marker d) ->
  ~ starts_with_marker (Str.drop q (marker d +:+ rest)).
Proof.
  intros [Hd _] [Hq0 Hq] (d' & rest' & _ & Heq).
  destruct (drop_inside q (marker d) rest Hq) as (c & y & Hdrop & Hin).
  rewrite Hdrop in Heq. unfold marker, marker_head in Heq.
  rewrite !append_cons in Heq. injection Heq as -> _.
  destruct q as [|q]; [lia|]. unfold marker, marker_head in Hin.
  rewrite append_cons in Hin. simpl in Hin.
  assert (Hall : Str.forallb (fun c => negb (Ascii.eqb c "N"))
                   ("o.: " +:+ d +:+ marker_tail) = true).
  { rewrite !forallb_append. rewrite (digits_without "N" d eq_refl Hd). done. }
  by pose proof (drop_forallb _ _ _ _ _ Hall Hin).
Qed.

Lemma no_marker_empty : ~ starts_with_marker EmptyString.
Proof. by intros (d & rest & _ & H). Qed.

(** The matches of the marker pattern, scanning [s] from position [pos] of
    the text: each is a marker, no marker of [s] is missed, and they come in
    order. *)
Lemma finditer_from_markers fuel s pos :
  String.length s < fuel ->
  let ms := re.finditer_from fuel re.no_flags chunk_pattern s pos in
  (forall m, m ∈ ms ->
     exists d rest,
       digits d
       /\ pos <= re.m_start m
       /\ Str.drop (re.m_start m - pos) s = marker d +:+ rest
       /\ m = {| re.m_start := re.m_start m;
                 re.m_end := re.m_start m + String.length (marker d);
                 re.m_groups := [(1, d)] |})
  /\ (forall q, starts_with_marker (Str.drop q s) ->
        pos + q ∈ (re.m_start <$> ms))
  /\ StronglySorted lt (re.m_start <$> ms).
Proof.
  revert s pos. induction fuel as [|fuel IH]; intros s pos Hfuel; [lia|].
  simpl. destruct (re.search_from re.no_flags chunk_pattern s pos) as [m0|] eqn:Hs.
  2:{ split; [by intros m ?%elem_of_nil|]. split; [|constructor].
      intros q Hq. exfalso.
      destruct (le_lt_dec q (String.length s)) as [Hle|Hgt].
      - by apply (match_here_marker_complete _ (pos + q)) in Hq;
          rewrite (search_from_none _ _ _ _ Hs q Hle) in Hq.
      - rewrite drop_beyond in Hq by lia. by apply no_marker_empty in Hq. }
  apply search_from_leftmost in Hs as (pre & s1 & -> & Hm0 & Hleft).
  apply match_here_marker in Hm0 as (d & rest & Hd & -> & ->).
  cbn [re.m_end re.m_start].
  replace (pos + String.length pre + String.length (marker d) - pos)
    with (String.length pre + String.length (marker d)) by lia.
  rewrite drop_drop, drop_append, drop_append.
  assert (Hlen : 0 < String.length (marker d)).
  { unfold marker. rewrite length_append. simpl. lia. }
  specialize (IH rest (pos + String.length pre + String.length (marker d))).
  destruct IH as (IH1 & IH2 & IH3).
  { rewrite !length_append in Hfuel. lia. }
  split; [|split].
  - intros m [->|Hin]%elem_of_cons.
    + exists d, rest. cbn [re.m_start].
      replace (pos + String.length pre - pos) with (String.length pre) by lia.
      split; [done|]. split; [lia|]. split; [apply drop_append|done].
    + destruct (IH1 m Hin) as (d' & rest' & Hd' & Hpos & Hdrop & Hm).
      exists d', rest'. split; [done|]. split; [lia|]. split; [|done].
      replace (re.m_start m - pos)
        with (String.length pre + (String.length (marker d)
              + (re.m_start m - (pos + String.length pre + String.length (marker d)))))
        by lia.
      by rewrite !drop_drop, !drop_append.
  - intros q Hq. rewrite fmap_cons. cbn [re.m_start]. apply elem_of_cons.
    destruct (lt_eq_lt_dec q (String.length pre)) as [[Hlt| ->]|Hgt].
    + exfalso. apply (match_here_marker_complete _ (pos + q)) in Hq.
      by rewrite (Hleft q Hlt) in Hq.
    + by left.
    + right.
      destruct (le_lt_dec (String.length pre + String.length (marker d)) q)
        as [Hge|Hin].
      * replace (pos + q)
          with (pos + String.length pre + String.length (marker d)
                + (q - (String.length pre + String.length (marker d)))) by lia.
        apply IH2.
        replace q with (String.length pre + (String.length (marker d)
                        + (q - (String.length pre + String.length (marker d)))))
          in Hq by lia.
        by rewrite !drop_drop, !drop_append in Hq.
      * exfalso.
        replace q with (String.length pre + (q - String.length pre)) in Hq by lia.
        rewrite drop_drop, drop_append in Hq.
        apply (no_marker_inside d rest (q - String.length pre)) in Hq;
          [done|done|lia].
  - rewrite fmap_cons. cbn [re.m_start]. constructor; [done|].
    apply Forall_forall. intros p (m & -> & Hin)%list_elem_of_fmap.
    destruct (IH1 m Hin) as (_ & _ & _ & Hpos & _). lia.
Qed.

(** The markers that the splitter finds are the marker texts of the input:
    a match starts at a position exactly when a marker starts there, the
    matches come in the order of the text, and each spans its marker and
    captures its identifier. *)
Lemma markers_spec full_text :
  (forall m, m ∈ markers full_text ->
     exists d rest,
       digits d
       /\ Str.drop (re.m_start m) full_text = marker d +:+ rest
       /\ re.m_end m = re.m_start m + String.length (marker d)
       /\ re.group (re.m_groups m) 1 = d)
  /\ (forall p, p ∈ (re.m_start <$> markers full_text)
                <-> starts_with_marker (Str.drop p full_text))
  /\ StronglySorted lt (re.m_start <$> markers full_text).
Proof.
  unfold markers, re.finditer.
  destruct (finditer_from_markers (S (String.length full_text)) full_text 0
              ltac:(lia)) as (H1 & H2 & H3).
  split; [|split; [|done]].
  - intros m (d & rest & Hd & _ & Hdrop & Hm)%H1.
    exists d, rest. rewrite Nat.sub_0_r in Hdrop.
    split; [done|]. split; [done|]. rewrite Hm. by split.
  - intros p. split; [|apply (H2 p)].
    intros (m & -> & (d & rest & Hd & _ & Hdrop & _)%H1)%list_elem_of_fmap.
    rewrite Nat.sub_0_r in Hdrop. by exists d, rest.
Qed.

Lemma segments_length full_text :
  length (segments full_text) = length (markers full_text).
Proof. unfold segments. apply length_imap. Qed.

Lemma segments_lookup full_text i m :
  markers full_text !! i = Some m ->
  segments full_text !! i =
  Some (re.group (re.m_groups m) 1,
        Str.strip (Str.slice full_text (re.m_end m)
          (from_option re.m_start (String.length full_text)
             (markers full_text !! (i + 1))))).
Proof.
  intros Hm. unfold segments. rewrite list_lookup_imap, Hm. simpl.
  unfold segment_of, chunk_text_of.
  by destruct (markers full_text !! (i + 1)).
Qed.

(** C6.  The markers that the splitter iterates over are exactly the marker
    texts [No.: <digits> of all the chunks] of the input, in order, and it
    makes one segment per marker: the text from the end of the marker to the
    start of the next one (to the end of the text for the last), stripped.
    A segment whose stripped text is empty is skipped: the loop's result is
    made of the contributions of the other segments only, so the number of
    processed segments is the number of markers minus the number of empty
    ones. *)
Theorem splitter_skips_empty_segments (full_text : string) :
  (forall p, p ∈ (re.m_start <$> markers full_text)
             <-> starts_with_marker (Str.drop p full_text))
  /\ StronglySorted lt (re.m_start <$> markers full_text)
  /\ length (segments full_text) = length (markers full_text)
  /\ (forall i m,
        markers full_text !! i = Some m ->
        exists d,
          digits d
          /\ re.m_end m = re.m_start m + String.length (marker d)
          /\ segments full_text !! i =
             Some (d, Str.strip (Str.slice full_text (re.m_end m)
                         (from_option re.m_start (String.length full_text)
                            (markers full_text !! (i + 1))))))
  /\ processed full_text
     = List.filter (fun seg => negb (falsy seg.2)) (segments full_text)
  /\ length (processed full_text)
     = length (markers full_text) - length (skipped full_text)
  /\ result_of (extract_kg full_text)
     = inr {| entities :=
                concat ((fun seg => extract_entities ("chunk_" +:+ seg.1) seg.2)
                          <$> processed full_text);
              relationships :=
                concat ((fun seg => extract_relationships ("chunk_" +:+ seg.1) seg.2)
                          <$> processed full_text);
              chunks :=
                concat ((fun seg => option_list
                           (extract_chunk seg.1 ("chunk_" +:+ seg.1) seg.2))
                          <$> processed full_text) |}.
Proof.
  destruct (markers_spec full_text) as (Hm & Hpos & Hsorted).
  split; [done|]. split; [done|].
  split; [apply segments_length|].
  split.
  { intros i m Hi.
    destruct (Hm m) as (d & rest & Hd & _ & Hend & Hg).
    { by eapply list_elem_of_lookup_2. }
    exists d. split; [done|]. split; [done|].
    by rewrite (segments_lookup _ _ _ Hi), Hg. }
  split; [done|].
  split.
  - unfold processed, skipped. rewrite <- segments_length.
    apply (filter_split_length (fun seg => falsy seg.2)).
  - rewrite extract_kg_result. unfold extracted, kg_concat.
    by rewrite <- !list_fmap_compose.
Qed.

(** ** Which records are extracted *)



(** Every entity that the extraction yields comes from a record of the
    entity shape in the chunk text. *)
Lemma extract_entities_sound source_id chunk_text e :
  e ∈ extract_entities source_id chunk_text ->
  exists pre body post name type description,
    chunk_text = pre +:+ body +:+ post
    /\ entity_record name type description body
    /\ entity_follow post
    /\ e = {| Entity.entity_name := Str.strip name;
              Entity.entity_type := Str.strip type;
              Entity.description := Str.strip description;
              Entity.source_id := source_id |}.
Proof.
  unfold extract_entities.
  intros (g & -> & (pre & body & post & -> & H)%findall_sound)%list_elem_of_fmap.
  apply entity_pattern_shape in H as (n & t & d & -> & Hrec & Hfollow).
  by exists pre, body, post, n, t, d.
Qed.

Lemma extract_relationships_sound source_id chunk_text r :
  r ∈ extract_relationships source_id chunk_text ->
  exists pre body post src tgt description weight keywords,
    chunk_text = pre +:+ body +:+ post
    /\ relationship_record src tgt description weight keywords body
    /\ r = {| Relationship.src_id := Str.strip src;
              Relationship.tgt_id := Str.strip tgt;
              Relationship.description := Str.strip description;
              Relationship.keywords := Str.strip keywords;
              Relationship.weight := float weight;
              Relationship.source_id := source_id |}.
Proof.
  unfold extract_relationships.
  intros (g & -> & (pre & body & post & -> & H)%findall_sound)%list_elem_of_fmap.
  apply relation_pattern_shape in H as (s & t & d & w & k & -> & Hrec).
  by exists pre, body, post, s, t, d, w, k.
Qed.









(** The same with six fields after the "relationship" tag: the keywords take
    the surplus. *)
Example six_field_relationship_is_extracted :
  extract_relationships "chunk_1" (tag "relationship" +:+ "|A|B|d|7|k1|k2)")
  = [ {| Relationship.src_id := "A"; Relationship.tgt_id := "B";
         Relationship.description := "d"; Relationship.keywords := "k1|k2";
         Relationship.weight := float "7"; Relationship.source_id := "chunk_1" |} ].
Proof. reflexivity. Qed.

(** A record with two fields is not skipped when another record follows: it
    takes the next record's tag as its type. *)
Example short_entity_swallows_the_next :
  extract_entities "chunk_1"
    (tag "entity" +:+ "|A|B)" +:+ String re.newline (tag "entity" +:+ "|C|D|E)"))
  = [ {| Entity.entity_name := "A";
         Entity.entity_type := "B)" +:+ String re.newline (tag "entity");
         Entity.description := "C|D|E"; Entity.source_id := "chunk_1" |} ].
Proof. reflexivity. Qed.



(** ** The weight of a relationship *)

Lemma digits2_pos_size p : digits2_pos p = Pos.size p.
Proof. induction p; simpl; congruence. Qed.

Lemma digits2_pos_iter p k :
  digits2_pos (Pos.iter xO p k) = (digits2_pos p + k)%positive.
Proof.
  induction k using Pos.peano_ind.
  - simpl. lia.
  - rewrite Pos.iter_succ. simpl. rewrite IHk. lia.
Qed.

Lemma iter_xO_mul p k : Pos.iter xO p k = (p * 2 ^ k)%positive.
Proof.
  induction k using Pos.peano_ind.
  - simpl. lia.
  - rewrite Pos.iter_succ, IHk, Pos.pow_succ_r. lia.
Qed.

Lemma digits2_pos_bound p :
  (Zpos p < 2 ^ 53)%Z -> (Zpos (digits2_pos p) <= 53)%Z.
Proof.
  intros H. rewrite digits2_pos_size.
  destruct (Z_le_gt_dec (Zpos (Pos.size p)) 53) as [|Hgt]; [done|exfalso].
  pose proof (Pos.size_le p) as Hle.
  assert (2 ^ 54 <= 2 ^ Zpos (Pos.size p))%Z by (apply Z.pow_le_mono_r; lia).
  assert (Zpos (2 ^ Pos.size p) = 2 ^ Zpos (Pos.size p))%Z
    by (by rewrite Pos2Z.inj_pow).
  lia.
Qed.

Ltac no_shift :=
  match goal with
  | |- context [shr _ _ ?x] =>
      let Hx := fresh in
      assert (Hx : x = 0%Z)
        by (unfold fexp, emin; simpl Zdigits2; rewrite ?digits2_pos_iter; lia);
      rewrite Hx; clear Hx;
      cbn [shr shr_record_of_loc round_nearest_even shr_m loc_of_shr_record]
  end.

(** Below 2^53 the conversion only aligns the mantissa: nothing is rounded
    away. *)
Lemma binary_normalize_small p :
  (Zpos p < 2 ^ 53)%Z ->
  exists m e,
    binary_normalize 53 1024 (Zpos p) 0 false = S754_finite false m e
    /\ ((e = 0%Z /\ m = p)
        \/ exists k, e = Zneg k /\ m = (p * 2 ^ k)%positive).
Proof.
  intros Hp. pose proof (digits2_pos_bound p Hp) as Hd.
  unfold binary_normalize, binary_round.
  set (d := digits2_pos p) in *.
  match goal with |- context [shl_align _ _ ?x] =>
    assert (Hf : x = (Zpos d - 53)%Z) by (unfold fexp, emin; lia); rewrite Hf
  end.
  unfold shl_align.
  match goal with
  | |- context [match ?x with Z0 => _ | Zpos _ => _ | Zneg _ => _ end] =>
      destruct x as [|k|k] eqn:Hk; [|lia|]
  end.
  - exists p, 0%Z. split; [|by left].
    unfold binary_round_aux, shr_fexp. subst d. repeat no_shift. reflexivity.
  - exists (Pos.iter xO p k), (Zneg k).
    split; [|right; exists k; split; [done|apply iter_xO_mul]].
    unfold binary_round_aux, shr_fexp. subst d.
    replace (Zpos (digits2_pos p) - 53)%Z with (Zneg k) by lia.
    repeat no_shift.
    match goal with |- context [if ?b then _ else _] =>
      assert (Hb : b = true) by (apply Z.leb_le; lia); rewrite Hb
    end.
    reflexivity.
Qed.

Lemma float_of_small_integer (n : Z) :
  (0 <= n <= 2 ^ 53)%Z ->
  float_equals (binary_normalize 53 1024 n 0 false) n.
Proof.
  intros [H0 H53].
  destruct (Z.eq_dec n (2 ^ 53)%Z) as [->|Hne]; [by vm_compute|].
  destruct n as [|p|p]; [by vm_compute| |lia].
  destruct (binary_normalize_small p) as (m & e & -> & Hm); [lia|].
  unfold float_equals, float_value, Qeq.
  destruct Hm as [[-> ->]|(k & -> & ->)]; simpl; lia.
Qed.

Lemma int_acc_digits (w : string) (acc : Z) :
  Str.forallb Str.is_digit w = true -> (0 <= acc)%Z -> (0 <= Str.int_acc acc w)%Z.
Proof.
  revert acc. induction w as [|c w IH]; intros acc Hw Hacc; simpl in *; [done|].
  apply andb_prop in Hw as [Hc Hw]. apply IH; [done|].
  unfold Str.is_digit in Hc. unfold Str.digit_value.
  apply andb_prop in Hc as [Hlo Hhi]. apply N.leb_le in Hlo. lia.
Qed.

(** The weight that [float] gives a string of digits is the integer it
    spells, whenever that integer is at most 2^53. *)
Lemma float_exact (weight : string) :
  digits weight ->
  (Str.int weight <= 2 ^ 53)%Z ->
  float_equals (float weight) (Str.int weight).
Proof.
  intros [Hd _] Hle. apply float_of_small_integer. split; [|done].
  by apply int_acc_digits.
Qed.

(** C8, as the code has it.  The weight of an extracted relationship is
    [float] of the fourth field of its record, a non-empty string of digits;
    it equals the integer that the digits spell whenever that integer is at
    most 2^53 = 9007199254740992. *)
Theorem weight_equals_small_literal (source_id chunk_text : string)
    (r : Relationship.t) :
  r ∈ extract_relationships source_id chunk_text ->
  exists pre body post src tgt description weight keywords,
    chunk_text = pre +:+ body +:+ post
    /\ relationship_record src tgt description weight keywords body
    /\ digits weight
    /\ Relationship.weight r = float weight
    /\ ((Str.int weight <= 2 ^ 53)%Z ->
        float_equals (Relationship.weight r) (Str.int weight)).
Proof.
  intros (pre & body & post & s & t & d & w & k & -> & Hrec & ->)
           %extract_relationships_sound.
  exists pre, body, post, s, t, d, w, k.
  assert (Hw : digits w) by by destruct Hrec as (_ & _ & _ & Hw & _).
  split; [done|]. split; [done|]. split; [done|]. split; [done|].
  intros Hle. by apply float_exact.
Qed.

Lemma weight_equals_small_literal_witness :
  exists pre body post src tgt description weight keywords,
    sample_relationship = pre +:+ body +:+ post
    /\ relationship_record src tgt description weight keywords body
    /\ digits weight
    /\ float "7" = float weight
    /\ ((Str.int weight <= 2 ^ 53)%Z -> float_equals (float "7") (Str.int weight)).
Proof.
  apply (weight_equals_small_literal "chunk_1" sample_relationship
           {| Relationship.src_id := "Alice"; Relationship.tgt_id := "Bob";
              Relationship.description := "knows";
              Relationship.keywords := "friend";
              Relationship.weight := float "7";
              Relationship.source_id := "chunk_1" |}).
  apply list_elem_of_here.
Defined.

Example weight_7 : float_equals (float "7") 7.
Proof. by vm_compute. Qed.

(** C8 as stated fails: the literal 9007199254740993 = 2^53 + 1 is not a
    binary64 number, and the extracted weight is 9007199254740992.0. *)
Lemma large_weight_is_rounded :
  exists r,
    extract_relationships "chunk_1" large_weight_relationship = [r]
    /\ Relationship.weight r = float "9007199254740993"
    /\ Str.int "9007199254740993" = 9007199254740993%Z
    /\ float_equals (Relationship.weight r) 9007199254740992
    /\ ~ float_equals (Relationship.weight r) (Str.int "9007199254740993").
Proof.
  eexists. split; [reflexivity|]. split; [reflexivity|].
  split; [reflexivity|]. split; by vm_compute.
Qed.

(** ** Segments without the [original text:] label *)





(** ** The retrieval log store *)

Section Store.
Variable json_dumps : RetrievalResult.t -> string.
Variable json_loads : string -> option RetrievalResult.t.
Variable json_dumps_indented : RetrievalResult.t -> string.
Variable self : RetrievalLogger.t.

Lemma load_logs_returns log_file_arg fs :
  exists results,
    result_of (RetrievalLogger.load_logs json_loads self log_file_arg fs)
    = inr results.
Proof.
  unfold RetrievalLogger.load_logs.
  destruct (fs !! _) as [content|]; [|by eexists].
  destruct (RetrievalLogger.read_results _ _ _); by eexists.
Qed.

(** A line that raises makes the loop raise, whatever was read before. *)
Lemma read_results_malformed lines line results :
  line ∈ lines ->
  falsy (Str.strip line) = false ->
  json_loads line = None ->
  RetrievalLogger.read_results json_loads lines results = None.
Proof.
  intros Hin Hne Hbad. revert results.
  induction lines as [|l lines IH]; intros results; [by apply elem_of_nil in Hin|].
  apply elem_of_cons in Hin as [<-|Hin]; simpl.
  - by rewrite Hne, Hbad.
  - destruct (falsy (Str.strip l)); [by apply IH|].
    destruct (json_loads l); [by apply IH|done].
Qed.

(** C5.  [load_logs] on a path that names no file logs a warning and returns
    the empty list.  When a line that it deserializes (a line that is not
    blank) raises, it logs an error and returns the empty list, whatever the
    lines before it held. *)
Theorem load_logs_missing_or_malformed (log_file_arg : option string)
    (fs : files) :
  let file_path := RetrievalLogger.file_path_of self log_file_arg in
  (fs !! file_path = None ->
   RetrievalLogger.load_logs json_loads self log_file_arg fs
   = ([(WARNING, log_file_not_found file_path)], inr []))
  /\ (forall content line,
        fs !! file_path = Some content ->
        line ∈ readlines content ->
        Str.strip line <> EmptyString ->
        json_loads line = None ->
        RetrievalLogger.load_logs json_loads self log_file_arg fs
        = ([(ERROR, failed_to_load file_path)], inr [])).
Proof.
  intros file_path. unfold RetrievalLogger.load_logs. fold file_path. split.
  - intros ->. by rewrite bind_logger.
  - intros content line -> Hin Hne Hbad.
    rewrite (read_results_malformed _ line); [by rewrite bind_logger|done| |done].
    by destruct (Str.strip line).
Qed.

(** ** Statistics *)

Lemma count_all_sums st results :
  total_entities (count_all st results)
  = total_entities st
    + sum_list_with (fun r => length (RetrievalResult.entities r)) results
  /\ total_relationships (count_all st results)
     = total_relationships st
       + sum_list_with (fun r => length (RetrievalResult.relationships r)) results
  /\ total_chunks (count_all st results)
     = total_chunks st
       + sum_list_with (fun r => length (RetrievalResult.text_chunks r)) results
  /\ no_results (count_all st results)
     = no_results st + length (List.filter holds_nothing results).
Proof.
  revert st. induction results as [|r rs IH]; intros st; simpl.
  - by rewrite !Nat.add_0_r.
  - destruct (IH (count_result r st)) as (-> & -> & -> & ->).
    unfold count_result, holds_nothing. simpl.
    destruct (_ && _); simpl; lia.
Qed.



(** ** Export *)



(** ** Appending and loading back *)

Lemma log_retrieval_eq record fs :
  RetrievalLogger.log_retrieval json_dumps self record fs
  = ([(DEBUG, logged_retrieval (Str.take 50 (RetrievalResult.query record)))],
     inr (<[RetrievalLogger.log_file self :=
              default EmptyString (fs !! RetrievalLogger.log_file self)
              +:+ json_dumps record +:+ linefeed]> fs)).
Proof. unfold RetrievalLogger.log_retrieval. by rewrite bind_logger. Qed.

Lemma log_all_result records fs :
  exists fs',
    result_of (for_each records (RetrievalLogger.log_retrieval json_dumps self) fs)
    = inr fs'
    /\ match records with
       | [] => fs' = fs
       | _ :: _ =>
           fs' !! RetrievalLogger.log_file self
           = Some (default EmptyString (fs !! RetrievalLogger.log_file self)
                   +:+ written json_dumps records)
       end.
Proof.
  revert fs. induction records as [|r rs IH]; intros fs.
  - by exists fs.
  - rewrite for_each_cons, log_retrieval_eq, result_bind. cbn [result_of snd].
    destruct (IH (<[RetrievalLogger.log_file self :=
                      default EmptyString (fs !! RetrievalLogger.log_file self)
                      +:+ json_dumps r +:+ linefeed]> fs)) as (fs' & -> & Hfs').
    exists fs'. split; [done|]. destruct rs as [|r' rs].
    + subst fs'. rewrite lookup_insert_eq. simpl. by rewrite append_empty_r.
    + rewrite Hfs', lookup_insert_eq. simpl. by rewrite !append_assoc.
Qed.

Lemma readlines_line line rest :
  one_line line ->
  readlines (line +:+ linefeed +:+ rest) = (line +:+ linefeed) :: readlines rest.
Proof.
  unfold one_line, without. intros [Hn Hr].
  induction line as [|c line IH].
  - rewrite !append_empty_l. unfold linefeed. by rewrite append_cons.
  - simpl in Hn, Hr. apply andb_prop in Hn as [Hcn Hn].
    apply andb_prop in Hr as [Hcr Hr]. rewrite !append_cons. simpl.
    apply negb_true_iff in Hcn, Hcr. rewrite Hcn, Hcr.
    by rewrite (IH Hn Hr).
Qed.




End Store.

Example sample_log_file :
  RetrievalLogger.log_file sample_logger
  = "retrieval_logs/retrieval_log_1700000000.jsonl".
Proof. reflexivity. Qed.



Lemma load_logs_missing_or_malformed_witness :
  RetrievalLogger.load_logs sample_loads sample_logger (Some "nowhere.jsonl") ∅
  = ([(WARNING, log_file_not_found "nowhere.jsonl")], inr [])
  /\ RetrievalLogger.load_logs sample_loads sample_logger None damaged_files
     = ([(ERROR, failed_to_load "retrieval_logs/retrieval_log_1700000000.jsonl")],
        inr []).
Proof.
  split.
  - exact (proj1 (load_logs_missing_or_malformed sample_loads sample_logger
                    (Some "nowhere.jsonl") ∅) eq_refl).
  - apply (proj2 (load_logs_missing_or_malformed sample_loads sample_logger
                    None damaged_files)
             (sample_line_1 +:+ linefeed +:+ "not json" +:+ linefeed)
             ("not json" +:+ linefeed)).
    + reflexivity.
    + apply list_elem_of_further, list_elem_of_here.
    + discriminate.
    + reflexivity.
Defined.



(** ** The order of the checks, and what is logged *)








Section ErrorsAreLogged.
Context {Msg : Type}.






End ErrorsAreLogged.






Lemma check_relationship_log names r missing :
  relationship_ok r = true ->
  check_relationship names r missing
  = (keyword_warning r,
     inr (missing ∪ ({[Relationship.src_id r; Relationship.tgt_id r]} ∖ names))).
Proof.
  intros Hok. destruct (check_relationship_ok names r missing Hok) as (l & E & _).
  rewrite E. f_equal.
  apply (f_equal log_of) in E. cbn [log_of fst] in E. rewrite <- E.
  unfold check_relationship, relationship_ok, keyword_warning in *.
  destruct (falsy (Relationship.src_id r)); [done|].
  destruct (falsy (Relationship.tgt_id r)); [done|].
  destruct (falsy (Relationship.keywords r)).
  - by rewrite bind_logger, mret_eq.
  - by rewrite bind_mret, mret_eq.
Qed.

Lemma check_relationships_log names rs missing :
  forallb relationship_ok rs = true ->
  for_each rs (check_relationship names) missing
  = (rs ≫= keyword_warning, inr (missing ∪ (endpoints_of rs ∖ names))).
Proof.
  revert missing. induction rs as [|r rs IH]; intros missing Hok.
  - cbn [for_each]. rewrite mret_eq. do 2 f_equal.
    unfold endpoints_of. simpl. set_solver.
  - simpl in Hok. apply andb_true_iff in Hok as [Hr Hrs].
    rewrite for_each_cons, (check_relationship_log _ _ _ Hr), bind_return.
    rewrite (IH _ Hrs). cbn [log_of result_of fst snd]. f_equal.
    f_equal. unfold endpoints_of. simpl. set_solver.
Qed.

(** X3.  What the validator logs when no entity and no relationship has an
    empty field: the number of distinct entity names, a warning for each
    relationship without keywords, in order, the report on the references
    and the verdict on the chunks. *)
Theorem validate_kg_data_log (es : list Entity.t) (rs : list Relationship.t)
    (cs : list Chunk.t) :
  forallb entity_ok es = true ->
  forallb relationship_ok rs = true ->
  log_of (validate_kg_data es rs cs)
  = (INFO, entities_valid (size (names_of es)))
      :: (rs ≫= keyword_warning)
      ++ reference_report (missing_references es rs)
      :: match cs with
         | [] => [(ERROR, no_chunks)]
         | _ :: _ => [(INFO, chunks_valid (length cs))]
         end.
Proof.
  intros Hes Hrs. unfold validate_kg_data.
  rewrite (check_entities_ok _ _ Hes), bind_return_nil, bind_logger.
  cbn [log_of fst]. f_equal.
  { do 3 f_equal. set_solver. }
  rewrite (check_relationships_log _ _ _ Hrs), bind_return.
  cbn [log_of fst]. f_equal.
  assert ((∅ ∪ endpoints_of rs ∖ (∅ ∪ names_of es) : gset string)
          = missing_references es rs) as ->
    by (unfold missing_references; set_solver).
  unfold reference_report.
  destruct (decide (missing_references es rs = ∅));
    rewrite bind_logger; cbn [log_of fst]; f_equal;
    (destruct cs; [by rewrite bind_logger|done]).
Qed.

Lemma validate_kg_data_log_witness :
  log_of (validate_kg_data sample_entities terse_relationships sample_chunks)
  = (INFO, entities_valid (size (names_of sample_entities)))
      :: (terse_relationships ≫= keyword_warning)
      ++ reference_report (missing_references sample_entities terse_relationships)
      :: [(INFO, chunks_valid 1)].
Proof.
  exact (validate_kg_data_log sample_entities terse_relationships sample_chunks
           eq_refl eq_refl).
Defined.

(** ** What the loop logs, and where the records come from *)

Lemma process_chunk_log full_text matches idx m st :
  log_of (process_chunk full_text matches (idx, m) st)
  = [segment_record (segment_of full_text matches idx m)].
Proof.
  unfold process_chunk, segment_record, segment_of. cbn [fst snd].
  destruct (falsy _).
  - by rewrite bind_logger, mret_eq.
  - rewrite log_bind. destruct (extract_chunk _ _ _);
      rewrite bind_logger, mret_eq; cbn [log_of result_of fst snd];
      by rewrite mret_eq.
Qed.

Lemma for_each_process_chunk_log full_text matches
    (ims : list (nat * re.Match)) st :
  log_of (for_each ims (process_chunk full_text matches) st)
  = (fun im => segment_record (segment_of full_text matches im.1 im.2)) <$> ims.
Proof.
  revert st. induction ims as [|[idx m] ims IH]; intros st.
  - cbn [for_each]. by rewrite mret_eq.
  - rewrite for_each_cons, log_bind, process_chunk_log, process_chunk_result.
    by rewrite IH.
Qed.

(** X4.  The loop logs the number of markers and then one record for each
    marker, in order: a warning when its segment is empty or has no
    [original text:] label, the length of the chunk content otherwise. *)
Theorem extract_kg_log (full_text : string) :
  log_of (extract_kg full_text)
  = (INFO, found_chunks (length (markers full_text)))
      :: (segment_record <$> segments full_text).
Proof.
  unfold extract_kg. rewrite bind_logger. cbn [log_of fst]. f_equal.
  rewrite for_each_process_chunk_log. unfold segments.
  rewrite fmap_imap.
  apply (imap_enumerate
           (fun i m => segment_record
                         (segment_of full_text (markers full_text) i m))).
Qed.

Lemma markers_none full_text :
  (forall p, ~ starts_with_marker (Str.drop p full_text)) ->
  markers full_text = [].
Proof.
  intros Hno. destruct (markers_spec full_text) as (_ & Hpos & _).
  apply no_elements. intros m Hm.
  apply (Hno (re.m_start m)), Hpos, list_elem_of_fmap. by exists m.
Qed.

Lemma contains_drop p s q :
  Str.contains p s = false -> Str.contains p (Str.drop q s) = false.
Proof.
  revert s. induction q as [|q IH]; intros s H; [by destruct s|].
  destruct s as [|c s]; [done|]. simpl.
  apply IH. by apply contains_cons in H as [_ H].
Qed.

Lemma no_marker_head full_text :
  Str.contains marker_head full_text = false ->
  forall p, ~ starts_with_marker (Str.drop p full_text).
Proof.
  intros H p (d & rest & _ & E).
  apply (contains_drop _ _ p) in H. rewrite E in H.
  unfold marker in H. rewrite !append_assoc in H.
  destruct (Str.drop p full_text); simpl in H; discriminate.
Qed.

(** X5.  A text in which no marker occurs, the empty text among them,
    makes [parse_kg_from_txt] raise the error of the empty chunk list, after
    these five records. *)
Theorem parse_without_marker_raises (full_text : string) :
  (forall p, ~ starts_with_marker (Str.drop p full_text)) ->
  parse_kg_from_txt full_text
  = ([(INFO, found_chunks 0); (INFO, parse_done 0 0 0);
      (INFO, entities_valid 0); (INFO, all_entities_defined);
      (ERROR, no_chunks)],
     inl (ValueError "No chunks found")).
Proof.
  intros Hno. apply markers_none in Hno.
  unfold parse_kg_from_txt, extract_kg. unfold markers in Hno. rewrite Hno.
  reflexivity.
Qed.

Lemma parse_without_marker_raises_witness :
  parse_kg_from_txt "original text: Hello world"
  = ([(INFO, found_chunks 0); (INFO, parse_done 0 0 0);
      (INFO, entities_valid 0); (INFO, all_entities_defined);
      (ERROR, no_chunks)],
     inl (ValueError "No chunks found")).
Proof.
  apply parse_without_marker_raises, no_marker_head. reflexivity.
Defined.

Lemma processed_identifier full_text seg :
  seg ∈ processed full_text ->
  identifier_of full_text seg.1 /\ seg.2 <> EmptyString.
Proof.
  unfold processed. rewrite list_elem_of_In, filter_In, <- list_elem_of_In.
  intros [Hseg Hne].
  split; [|by destruct seg.2].
  apply list_elem_of_lookup_1 in Hseg as [i Hi].
  destruct (lookup_lt_is_Some_2 (markers full_text) i) as [m Hm].
  { rewrite <- segments_length. by eapply lookup_lt_Some. }
  rewrite (segments_lookup _ _ _ Hm) in Hi. injection Hi as <-.
  destruct (markers_spec full_text) as (Hm' & _ & _).
  destruct (Hm' m) as (d & rest & Hd & Hdrop & _ & Hg).
  { by eapply list_elem_of_lookup_2. }
  cbn [fst]. rewrite Hg. split; [done|]. by exists (re.m_start m), rest.
Qed.

Lemma elem_of_concat_fmap {X Y} (f : X -> list Y) (xs : list X) (y : Y) :
  y ∈ concat (f <$> xs) <-> exists x, x ∈ xs /\ y ∈ f x.
Proof.
  rewrite list_elem_of_In, in_concat. split.
  - intros (l & Hl & Hy). apply list_elem_of_In, list_elem_of_fmap in Hl.
    destruct Hl as (x & -> & Hx). exists x. split; [done|].
    by apply list_elem_of_In.
  - intros (x & Hx & Hy). exists (f x). split.
    + apply list_elem_of_In, list_elem_of_fmap. by exists x.
    + by apply list_elem_of_In.
Qed.

Lemma extracted_entities full_text e :
  e ∈ entities (extracted full_text) <->
  exists seg, seg ∈ processed full_text
    /\ e ∈ extract_entities ("chunk_" +:+ seg.1) seg.2.
Proof.
  unfold extracted, kg_concat. cbn [entities].
  rewrite <- list_fmap_compose. apply elem_of_concat_fmap.
Qed.

Lemma extracted_relationships full_text r :
  r ∈ relationships (extracted full_text) <->
  exists seg, seg ∈ processed full_text
    /\ r ∈ extract_relationships ("chunk_" +:+ seg.1) seg.2.
Proof.
  unfold extracted, kg_concat. cbn [relationships].
  rewrite <- list_fmap_compose. apply elem_of_concat_fmap.
Qed.

Lemma extracted_chunks full_text c :
  c ∈ chunks (extracted full_text) <->
  exists seg, seg ∈ processed full_text
    /\ extract_chunk seg.1 ("chunk_" +:+ seg.1) seg.2 = Some c.
Proof.
  unfold extracted, kg_concat. cbn [chunks].
  rewrite <- list_fmap_compose, elem_of_concat_fmap.
  split; intros (seg & Hseg & H); exists seg; (split; [done|]);
    cbn [compose contribution chunks] in *.
  - destruct (extract_chunk _ _ _); simpl in H.
    + apply list_elem_of_singleton in H. by subst.
    + by apply elem_of_nil in H.
  - rewrite H. apply list_elem_of_here.
Qed.

(** X6.  Every record of the payload names its source: the identifier of
    a marker of the text.  The index of a chunk is the number that the
    identifier denotes. *)
Theorem payload_records_name_their_marker (full_text : string)
    (payload : kg_data) :
  result_of (parse_kg_from_txt full_text) = inr payload ->
  (forall e, e ∈ entities payload ->
     exists d, identifier_of full_text d
       /\ Entity.source_id e = "chunk_" +:+ d)
  /\ (forall r, r ∈ relationships payload ->
        exists d, identifier_of full_text d
          /\ Relationship.source_id r = "chunk_" +:+ d)
  /\ (forall c, c ∈ chunks payload ->
        exists d, identifier_of full_text d
          /\ Chunk.source_id c = "chunk_" +:+ d
          /\ Chunk.source_chunk_index c = Str.int d
          /\ (0 <= Chunk.source_chunk_index c)%Z).
Proof.
  intros [-> _]%parse_payload. split; [|split].
  - intros e (seg & Hseg & He)%extracted_entities.
    exists seg.1. split; [by apply processed_identifier|].
    unfold extract_entities in He. apply list_elem_of_fmap in He.
    by destruct He as (g & -> & _).
  - intros r (seg & Hseg & Hr)%extracted_relationships.
    exists seg.1. split; [by apply processed_identifier|].
    unfold extract_relationships in Hr. apply list_elem_of_fmap in Hr.
    by destruct Hr as (g & -> & _).
  - intros c (seg & Hseg & Hc)%extracted_chunks.
    exists seg.1. destruct (processed_identifier _ _ Hseg) as [Hid _].
    split; [done|]. unfold extract_chunk in Hc.
    destruct (re.search _ _ _); [|done]. injection Hc as <-. cbn.
    split; [done|]. split; [done|].
    apply int_acc_digits; [apply Hid|lia].
Qed.

Lemma payload_records_name_their_marker_witness :
  exists d, identifier_of scenario_text d /\ "chunk_1" = "chunk_" +:+ d.
Proof.
  apply (proj1 (payload_records_name_their_marker scenario_text
                  {| entities := sample_entities;
                     relationships := sample_relationships;
                     chunks := sample_chunks |} ltac:(vm_compute; reflexivity))
           {| Entity.entity_name := "Alice"; Entity.entity_type := "person";
              Entity.description := "A person";
              Entity.source_id := "chunk_1" |}).
  apply list_elem_of_here.
Defined.

(** ** Trimmed fields *)

Lemma rstrip_idempotent s : Str.rstrip (Str.rstrip s) = Str.rstrip s.
Proof.
  induction s as [|c s IH]; [done|]. simpl.
  destruct (Str.rstrip s) as [|c' t] eqn:E.
  - destruct (Str.is_space c) eqn:Ec; [done|]. simpl. by rewrite Ec.
  - simpl. simpl in IH. by rewrite IH.
Qed.

Lemma rstrip_head c s :
  Str.is_space c = false -> exists t, Str.rstrip (String c s) = String c t.
Proof.
  intros Hc. simpl. destruct (Str.rstrip s); [rewrite Hc|]; by eexists.
Qed.

Lemma lstrip_head s :
  Str.lstrip s = EmptyString
  \/ exists c t, Str.lstrip s = String c t /\ Str.is_space c = false.
Proof.
  induction s as [|c s IH]; [by left|]. simpl.
  destruct (Str.is_space c) eqn:Ec; [done|]. right. by exists c, s.
Qed.

Lemma strip_trimmed s : trimmed (Str.strip s).
Proof.
  unfold trimmed, Str.strip. split; [|apply rstrip_idempotent].
  destruct (lstrip_head s) as [->|(c & t & -> & Hc)]; [done|].
  destruct (rstrip_head c t Hc) as [t' ->]. simpl. by rewrite Hc.
Qed.

Lemma lstrip_forallb f s :
  Str.forallb f s = true -> Str.forallb f (Str.lstrip s) = true.
Proof.
  induction s as [|c s IH]; [done|]. simpl.
  intros [Hc Hs]%andb_true_iff.
  destruct (Str.is_space c); [by apply IH|]. simpl. by rewrite Hc, Hs.
Qed.

Lemma rstrip_forallb f s :
  Str.forallb f s = true -> Str.forallb f (Str.rstrip s) = true.
Proof.
  induction s as [|c s IH]; [done|]. simpl.
  intros [Hc Hs]%andb_true_iff. specialize (IH Hs).
  destruct (Str.rstrip s) as [|c' t].
  - destruct (Str.is_space c); [done|]. simpl. by rewrite Hc.
  - change (f c && Str.forallb f (String c' t) = true). by rewrite Hc, IH.
Qed.

Lemma strip_forallb f s :
  Str.forallb f s = true -> Str.forallb f (Str.strip s) = true.
Proof. intros H. by apply rstrip_forallb, lstrip_forallb. Qed.

(** X7.  The fields of the extracted records have no white space at either
    end.  The name and the type of an entity, and the endpoints and the
    description of a relationship, have no pipe in them; the description of
    an entity has no line feed, and the keywords of a relationship have no
    closing parenthesis. *)
Theorem extracted_fields_are_trimmed (chunk_id source_id chunk_text : string) :
  (forall e, e ∈ extract_entities source_id chunk_text ->
     trimmed (Entity.entity_name e) /\ trimmed (Entity.entity_type e)
     /\ trimmed (Entity.description e)
     /\ without "|" (Entity.entity_name e)
     /\ without "|" (Entity.entity_type e)
     /\ without re.newline (Entity.description e))
  /\ (forall r, r ∈ extract_relationships source_id chunk_text ->
        trimmed (Relationship.src_id r) /\ trimmed (Relationship.tgt_id r)
        /\ trimmed (Relationship.description r)
        /\ trimmed (Relationship.keywords r)
        /\ without "|" (Relationship.src_id r)
        /\ without "|" (Relationship.tgt_id r)
        /\ without "|" (Relationship.description r)
        /\ without ")" (Relationship.keywords r))
  /\ (forall c, extract_chunk chunk_id source_id chunk_text = Some c ->
        trimmed (Chunk.content c)).
Proof.
  split; [|split].
  - intros e He. apply extract_entities_sound in He
      as (pre & body & post & n & t & d & _ & (Hn & Ht & Hd & _) & _ & ->).
    cbn. repeat (split; [apply strip_trimmed|]).
    repeat split; by apply strip_forallb.
  - intros r Hr. apply extract_relationships_sound in Hr
      as (pre & body & post & s & t & d & w & k & _
          & (Hs & Ht & Hd & _ & Hk & _) & ->).
    cbn. repeat (split; [apply strip_trimmed|]).
    repeat split; by apply strip_forallb.
  - unfold extract_chunk. destruct (re.search _ _ _); [|done].
    intros c [= <-]. apply strip_trimmed.
Qed.

Lemma extracted_fields_are_trimmed_witness :
  trimmed "Alice" /\ trimmed "person" /\ trimmed "A person"
  /\ without "|" "Alice" /\ without "|" "person"
  /\ without re.newline "A person".
Proof.
  apply (proj1 (extracted_fields_are_trimmed "1" "chunk_1" sample_entity)
           {| Entity.entity_name := "Alice"; Entity.entity_type := "person";
              Entity.description := "A person";
              Entity.source_id := "chunk_1" |}).
  vm_compute. apply list_elem_of_here.
Defined.

(** ** The content of a chunk *)

Lemma before_trailer_prefix s :
  s = before_trailer s +:+ Str.drop (String.length (before_trailer s)) s
  /\ trailer_here (Str.drop (String.length (before_trailer s)) s) = true.
Proof.
  induction s as [|c s [IH1 IH2]]; [done|].
  cbn [before_trailer]. destruct (trailer_here (String c s)) eqn:E.
  - by rewrite append_empty_l.
  - cbn [String.length Str.drop]. rewrite append_cons. by rewrite <- IH1.
Qed.

Section Lazy.
Context {A : Type}.

Lemma rep_lazy_until_trailer (s : string) (K : string -> option A) :
  re.rep_lazy re.S_ re.c_dot 0 s
    (fun s' => if trailer_here s' then K s' else None)
  = match K (Str.drop (String.length (before_trailer s)) s) with
    | Some x => Some x
    | None =>
        re.rep_lazy re.S_ re.c_dot 1
          (Str.drop (String.length (before_trailer s)) s)
          (fun s' => if trailer_here s' then K s' else None)
    end.
Proof.
  induction s as [|c s IH].
  - simpl. by destruct (K EmptyString).
  - cbn [before_trailer]. destruct (trailer_here (String c s)) eqn:E.
    + cbn [String.length Str.drop re.rep_lazy]. rewrite E.
      by destruct (K (String c s)).
    + cbn [String.length Str.drop re.rep_lazy]. rewrite E.
      cbn [re.class_match re.DOTALL re.S_ orb pred]. apply IH.
Qed.

Lemma rep_greedy_space (s : string) (K : string -> option A) (x : A) :
  K (Str.lstrip s) = Some x ->
  re.rep_greedy re.S_ re.c_space 0 s K = Some x.
Proof.
  induction s as [|c s IH]; [done|]. cbn [Str.lstrip re.rep_greedy re.class_match].
  destruct (Str.is_space c); [|done].
  intros H. cbn [pred]. by rewrite (IH H).
Qed.

End Lazy.

Lemma rep_lazy_ext {A} fl k min s (K1 K2 : string -> option A) :
  (forall s', K1 s' = K2 s') ->
  re.rep_lazy fl k min s K1 = re.rep_lazy fl k min s K2.
Proof.
  intros HK. revert min. induction s as [|c s IH]; intros min.
  - simpl. destruct min; [by rewrite HK|done].
  - cbn [re.rep_lazy]. rewrite HK, IH. done.
Qed.

Lemma exec_trailer {A} s cs (kont : string -> re.captures -> option A) :
  re.exec re.S_
    (re.Lookahead (re.Alt (re.Lit "total tokens:")
                     (re.Alt (re.Lit "deepseek-v3 output:") re.Dollar)))
    s cs kont
  = if trailer_here s then kont s cs else None.
Proof.
  unfold trailer_here. cbn [re.exec].
  destruct (Str.strip_prefix "total tokens:" s); [done|].
  destruct (Str.strip_prefix "deepseek-v3 output:" s); [done|].
  by destruct (re.at_dollar re.S_ s).
Qed.

Lemma match_here_original_text s pos :
  re.match_here re.S_ original_text_pattern s pos
  = match Str.strip_prefix "original text:" s with
    | Some rest =>
        let text := Str.lstrip rest in
        let content := before_trailer text in
        Some {| re.m_start := pos;
                re.m_end :=
                  pos + (String.length s
                         - String.length
                             (Str.drop (String.length content) text));
                re.m_groups := [(1, content)] |}
    | None => None
    end.
Proof.
  unfold re.match_here, original_text_pattern.
  set (L := re.Lookahead _). cbn [re.cat re.exec re.star].
  destruct (Str.strip_prefix "original text:" s) as [rest|]; [|done].
  cbn zeta. apply rep_greedy_space. cbn [re.star_lazy re.exec].
  erewrite rep_lazy_ext; [|intros s'; subst L; apply exec_trailer].
  cbn beta. rewrite (rep_lazy_until_trailer (Str.lstrip rest)
             (fun s' =>
                Some {| re.m_start := pos;
                        re.m_end := pos + (String.length s - String.length s');
                        re.m_groups :=
                          [(1, Str.take (String.length (Str.lstrip rest)
                                         - String.length s')
                                 (Str.lstrip rest))] |})).
  cbn beta. do 4 f_equal.
  destruct (before_trailer_prefix (Str.lstrip rest)) as [E _]. revert E.
  generalize (Str.drop (String.length (before_trailer (Str.lstrip rest)))
                (Str.lstrip rest)) as tl.
  generalize (before_trailer (Str.lstrip rest)) as w.
  intros w tl ->. apply take_append.
Qed.

Lemma search_from_original_text s pos :
  match re.search_from re.S_ original_text_pattern s pos with
  | Some m =>
      exists rest,
        after_label s = Some rest
        /\ re.group (re.m_groups m) 1 = before_trailer (Str.lstrip rest)
  | None => after_label s = None
  end.
Proof.
  revert pos. induction s as [|c s IH]; intros pos.
  - done.
  - cbn [re.search_from after_label]. rewrite match_here_original_text.
    destruct (Str.strip_prefix "original text:" (String c s)) as [rest|].
    + by exists rest.
    + apply IH.
Qed.

Lemma contains_here p s rest :
  Str.strip_prefix p s = Some rest -> Str.contains p s = true.
Proof. intros H. destruct s; cbn [Str.contains]; by rewrite H. Qed.

Lemma contains_append p pre post :
  Str.contains p (pre +:+ p +:+ post) = true.
Proof.
  induction pre as [|c pre IH].
  - rewrite append_empty_l. eapply contains_here, strip_prefix_append.
  - rewrite append_cons. cbn [Str.contains]. rewrite IH.
    by destruct (Str.strip_prefix p _).
Qed.

Lemma contains_lstrip p s :
  Str.contains p (Str.lstrip s) = true -> Str.contains p s = true.
Proof.
  induction s as [|c s IH]; [done|]. cbn [Str.lstrip].
  destruct (Str.is_space c); [|done].
  intros H%IH. cbn [Str.contains]. rewrite H.
  by destruct (Str.strip_prefix p _).
Qed.

Lemma rstrip_prefix s : exists w, s = Str.rstrip s +:+ w.
Proof.
  induction s as [|c s [w IH]]; [by exists EmptyString|]. simpl.
  destruct (Str.rstrip s) as [|c' t].
  - destruct (Str.is_space c).
    + by exists (String c s).
    + exists w. rewrite append_cons, append_empty_l. by rewrite IH at 1.
  - exists w. rewrite append_cons. by rewrite IH at 1.
Qed.

Lemma contains_strip p s :
  Str.contains p s = false -> Str.contains p (Str.strip s) = false.
Proof.
  intros H. destruct (Str.contains p (Str.strip s)) eqn:E; [|done].
  unfold Str.strip in E. apply contains_true in E as (pre & post & E).
  destruct (rstrip_prefix (Str.lstrip s)) as [w Hw]. rewrite E in Hw.
  pose proof (contains_append p pre (post +:+ w)) as Hc.
  rewrite !append_assoc in Hw. rewrite <- Hw in Hc.
  apply contains_lstrip in Hc. congruence.
Qed.

Lemma before_trailer_without p s :
  p <> EmptyString ->
  (forall x rest, Str.strip_prefix p x = Some rest -> trailer_here x = true) ->
  Str.contains p (before_trailer s) = false.
Proof.
  intros Hp Htrailer. induction s as [|c s IH].
  - cbn. by destruct p.
  - cbn [before_trailer]. destruct (trailer_here (String c s)) eqn:E.
    + by destruct p.
    + cbn [Str.contains]. rewrite IH.
      destruct (Str.strip_prefix p (String c (before_trailer s)))
        as [rest|] eqn:Ep; [|done].
      apply strip_prefix_spec in Ep.
      destruct (before_trailer_prefix s) as [Hs _].
      assert (Str.strip_prefix p (String c s)
              = Some (rest +:+ Str.drop (String.length (before_trailer s)) s))
        as Hx.
      { apply strip_prefix_spec. rewrite <- append_assoc, <- Ep.
        rewrite append_cons. by rewrite <- Hs. }
      apply Htrailer in Hx. congruence.
Qed.

(** X8.  The chunk of a segment holds the text that follows the first
    [original text:] label, from its first character that is not white space
    up to the first trailer ([total tokens:] or [deepseek-v3 output:]) or to
    the end of the segment, stripped; there is no chunk when the label is
    missing.  The content therefore holds neither trailer. *)
Theorem chunk_content_stops_at_the_trailer
    (chunk_id source_id chunk_text : string) :
  extract_chunk chunk_id source_id chunk_text
  = (fun rest =>
       {| Chunk.content := Str.strip (before_trailer (Str.lstrip rest));
          Chunk.source_id := source_id;
          Chunk.source_chunk_index := Str.int chunk_id |})
    <$> after_label chunk_text
  /\ (forall c,
        extract_chunk chunk_id source_id chunk_text = Some c ->
        Str.contains "total tokens:" (Chunk.content c) = false
        /\ Str.contains "deepseek-v3 output:" (Chunk.content c) = false).
Proof.
  assert (extract_chunk chunk_id source_id chunk_text
          = (fun rest =>
               {| Chunk.content := Str.strip (before_trailer (Str.lstrip rest));
                  Chunk.source_id := source_id;
                  Chunk.source_chunk_index := Str.int chunk_id |})
            <$> after_label chunk_text) as Hspec.
  { unfold extract_chunk, re.search.
    pose proof (search_from_original_text chunk_text 0) as H.
    destruct (re.search_from _ _ _ _) as [m|].
    - destruct H as (rest & -> & ->). done.
    - by rewrite H. }
  split; [done|]. rewrite Hspec.
  destruct (after_label chunk_text) as [rest|]; [|done].
  intros c [= <-]. cbn [Chunk.content].
  split; apply contains_strip, before_trailer_without; try done.
  - intros x r H. unfold trailer_here. by rewrite H.
  - intros x r H. unfold trailer_here. rewrite H.
    by destruct (Str.strip_prefix "total tokens:" x).
Qed.

Lemma chunk_content_stops_at_the_trailer_witness :
  Str.contains "total tokens:" "Hello world" = false
  /\ Str.contains "deepseek-v3 output:" "Hello world" = false.
Proof.
  exact (proj2 (chunk_content_stops_at_the_trailer "1" "chunk_1"
                  "original text: Hello world total tokens: 5")
           {| Chunk.content := "Hello world"; Chunk.source_id := "chunk_1";
              Chunk.source_chunk_index := 1 |} eq_refl).
Defined.

(** ** The sign of a weight *)

Lemma shr_1_nonneg mrs : (0 <= shr_m mrs)%Z -> (0 <= shr_m (shr_1 mrs))%Z.
Proof.
  destruct mrs as [m r s]. simpl. intros Hm.
  destruct m as [|[p|p|]|p]; simpl; lia.
Qed.

Lemma iter_pos_shr_1_nonneg p mrs :
  (0 <= shr_m mrs)%Z -> (0 <= shr_m (SpecFloat.iter_pos shr_1 p mrs))%Z.
Proof.
  revert mrs. induction p as [p IH|p IH|]; intros mrs Hm; simpl.
  - by apply IH, IH, shr_1_nonneg.
  - by apply IH, IH.
  - by apply shr_1_nonneg.
Qed.

Lemma shr_fexp_nonneg prec emax m e l :
  (0 <= m)%Z -> (0 <= shr_m (shr_fexp prec emax m e l).1)%Z.
Proof.
  intros Hm. unfold shr_fexp, shr.
  assert (0 <= shr_m (shr_record_of_loc m l))%Z as H0.
  { by destruct l as [|[]]. }
  destruct (_ - e)%Z; simpl; [done| |done].
  by apply iter_pos_shr_1_nonneg.
Qed.

Lemma round_nearest_even_nonneg m l :
  (0 <= m)%Z -> (0 <= round_nearest_even m l)%Z.
Proof.
  intros Hm. destruct l as [|[]]; simpl; try lia.
  destruct (Z.even m); lia.
Qed.

Lemma binary_round_aux_nonnegative prec emax m e l :
  (0 <= m)%Z -> nonnegative (binary_round_aux prec emax false m e l) = true.
Proof.
  intros Hm. unfold binary_round_aux.
  pose proof (shr_fexp_nonneg prec emax m e l Hm) as H1.
  destruct (shr_fexp prec emax m e l) as [mrs' e']. cbn [fst] in H1.
  pose proof (shr_fexp_nonneg prec emax _ e' loc_Exact
                (round_nearest_even_nonneg _ (loc_of_shr_record mrs') H1)) as H2.
  destruct (shr_fexp prec emax _ e' loc_Exact) as [mrs'' e'']. cbn [fst] in H2.
  destruct (shr_m mrs''); [done| |lia].
  by destruct (_ <=? _)%Z.
Qed.

Lemma float_nonnegative (weight : string) :
  Str.forallb Str.is_digit weight = true -> nonnegative (float weight) = true.
Proof.
  intros Hd. unfold float.
  pose proof (int_acc_digits weight 0 Hd ltac:(lia)) as Hn.
  fold (Str.int weight) in Hn. unfold binary_normalize.
  destruct (Str.int weight) as [|p|p]; [done| |lia].
  unfold binary_round. destruct (shl_align _ _ _) as [mz ez].
  by apply binary_round_aux_nonnegative.
Qed.

(** X9.  The weight of an extracted relationship is never a NaN and never
    negative: it is zero, a positive number, or the positive infinity. *)
Theorem weight_is_nonnegative (source_id chunk_text : string)
    (r : Relationship.t) :
  r ∈ extract_relationships source_id chunk_text ->
  nonnegative (Relationship.weight r) = true.
Proof.
  intros (pre & body & post & s & t & d & w & k & _
          & (_ & _ & _ & [Hw _] & _) & ->)%extract_relationships_sound.
  by apply float_nonnegative.
Qed.

Lemma weight_is_nonnegative_witness :
  nonnegative (float "7") = true.
Proof.
  apply (weight_is_nonnegative "chunk_1" sample_relationship
           {| Relationship.src_id := "Alice"; Relationship.tgt_id := "Bob";
              Relationship.description := "knows";
              Relationship.keywords := "friend";
              Relationship.weight := float "7";
              Relationship.source_id := "chunk_1" |}).
  vm_compute. apply list_elem_of_here.
Defined.

(** ** Concatenated texts *)

Lemma append_inv_head (p s t : string) : p +:+ s = p +:+ t -> s = t.
Proof.
  induction p as [|c p IH]; [by rewrite !append_empty_l|].
  rewrite !append_cons. intros [= H]. by apply IH.
Qed.

Lemma append_prefix (a b c d : string) :
  a +:+ b = c +:+ d -> String.length c <= String.length a ->
  exists e, a = c +:+ e.
Proof.
  revert a. induction c as [|x c IH]; intros a Heq Hlen.
  - exists a. by rewrite append_empty_l.
  - destruct a as [|y a]; [simpl in Hlen; lia|].
    rewrite !append_cons in Heq. injection Heq as -> Heq.
    destruct (IH a Heq) as [e ->]; [simpl in Hlen; lia|].
    exists e. by rewrite append_cons.
Qed.

Lemma marker_unique d d' rest rest' :
  digits d -> digits d' ->
  marker d +:+ rest = marker d' +:+ rest' -> d = d' /\ rest = rest'.
Proof.
  intros [Hd _] [Hd' _]. unfold marker. rewrite !append_assoc.
  intros H%append_inv_head. unfold marker_tail in H.
  rewrite !append_cons in H.
  apply split_at_first in H as [-> H]; try by apply digits_without.
  split; [done|]. rewrite !append_empty_l in H. by injection H.
Qed.

Lemma match_here_marker_match s pos d rest :
  digits d -> s = marker d +:+ rest ->
  re.match_here re.no_flags chunk_pattern s pos = Some (marker_match pos d).
Proof.
  intros Hd ->.
  destruct (re.match_here re.no_flags chunk_pattern (marker d +:+ rest) pos)
    as [m|] eqn:E.
  - apply match_here_marker in E as (d' & rest' & Hd' & Heq & ->).
    by apply marker_unique in Heq as [<- _].
  - exfalso. eapply match_here_marker_complete; [|exact E]. by exists d, rest.
Qed.

Lemma match_here_shift s pos :
  re.match_here re.no_flags chunk_pattern s pos
  = shift pos <$> re.match_here re.no_flags chunk_pattern s 0.
Proof.
  destruct (re.match_here re.no_flags chunk_pattern s 0) as [m|] eqn:E.
  - apply match_here_marker in E as (d & rest & Hd & Heq & ->).
    rewrite (match_here_marker_match _ pos _ _ Hd Heq). cbn.
    unfold marker_match, shift. cbn. do 2 f_equal. lia.
  - destruct (re.match_here re.no_flags chunk_pattern s pos) as [m|] eqn:E';
      [|done].
    apply match_here_marker in E' as (d & rest & Hd & Heq & _).
    by rewrite (match_here_marker_match _ 0 _ _ Hd Heq) in E.
Qed.

Lemma search_from_shift s pos :
  re.search_from re.no_flags chunk_pattern s pos
  = shift pos <$> re.search_from re.no_flags chunk_pattern s 0.
Proof.
  assert (forall k,
            re.search_from re.no_flags chunk_pattern s (pos + k)
            = shift pos <$> re.search_from re.no_flags chunk_pattern s k) as H.
  { induction s as [|c s IH]; intros k; cbn [re.search_from].
    - rewrite (match_here_shift _ (pos + k)), (match_here_shift _ k).
      destruct (re.match_here re.no_flags chunk_pattern EmptyString 0); [|done].
      cbn. unfold shift. cbn. do 2 f_equal; lia.
    - rewrite (match_here_shift _ (pos + k)), (match_here_shift _ k).
      destruct (re.match_here re.no_flags chunk_pattern (String c s) 0).
      + cbn. unfold shift. cbn. do 2 f_equal; lia.
      + cbn. rewrite <- IH. f_equal. lia. }
  specialize (H 0). by rewrite Nat.add_0_r in H.
Qed.

Lemma marker_length d : 0 < String.length (marker d).
Proof. unfold marker, marker_head. rewrite append_cons. simpl. lia. Qed.

Lemma search_from_marker s pos m :
  re.search_from re.no_flags chunk_pattern s pos = Some m ->
  exists pre d rest,
    digits d /\ s = pre +:+ marker d +:+ rest
    /\ m = marker_match (pos + String.length pre) d.
Proof.
  intros (pre & rest & -> & Hm & _)%search_from_leftmost.
  apply match_here_marker in Hm as (d & rest' & Hd & -> & ->).
  by exists pre, d, rest'.
Qed.

Lemma finditer_from_fuel fuel fuel' s pos :
  String.length s < fuel -> String.length s < fuel' ->
  re.finditer_from fuel re.no_flags chunk_pattern s pos
  = re.finditer_from fuel' re.no_flags chunk_pattern s pos.
Proof.
  revert fuel' s pos. induction fuel as [|fuel IH]; intros fuel' s pos Hf Hf';
    [lia|].
  destruct fuel' as [|fuel']; [lia|]. cbn [re.finditer_from].
  destruct (re.search_from re.no_flags chunk_pattern s pos) as [m|] eqn:E;
    [|done].
  f_equal. apply search_from_marker in E as (pre & d & rest & Hd & -> & ->).
  pose proof (marker_length d). cbn [marker_match re.m_end].
  apply IH; rewrite length_drop, !length_append in *; lia.
Qed.

Lemma finditer_from_shift fuel s pos :
  re.finditer_from fuel re.no_flags chunk_pattern s pos
  = shift pos <$> re.finditer_from fuel re.no_flags chunk_pattern s 0.
Proof.
  assert (forall k,
            re.finditer_from fuel re.no_flags chunk_pattern s (pos + k)
            = shift pos <$> re.finditer_from fuel re.no_flags chunk_pattern s k)
    as H.
  { revert s. induction fuel as [|fuel IH]; intros s k; [done|].
    cbn [re.finditer_from].
    rewrite (search_from_shift s (pos + k)), (search_from_shift s k).
    destruct (re.search_from re.no_flags chunk_pattern s 0) as [m|]; [|done].
    cbn [fmap option_fmap option_map shift re.m_end].
    rewrite fmap_cons. f_equal.
    - unfold shift. cbn. f_equal; lia.
    - replace (pos + k + re.m_end m - (pos + k)) with (k + re.m_end m - k)
        by lia.
      replace (pos + k + re.m_end m) with (pos + (k + re.m_end m)) by lia.
      apply IH. }
  specialize (H 0). by rewrite Nat.add_0_r in H.
Qed.

Lemma match_here_before_marker c x next pos :
  starts_with_marker next ->
  re.match_here re.no_flags chunk_pattern (String c x +:+ next) pos
  = re.match_here re.no_flags chunk_pattern (String c x) pos.
Proof.
  intros Hnext.
  destruct (re.match_here re.no_flags chunk_pattern (String c x) pos)
    as [m|] eqn:E.
  - apply match_here_marker in E as (d & rest & Hd & Heq & ->).
    apply (match_here_marker_match _ _ d (rest +:+ next) Hd).
    by rewrite Heq, append_assoc.
  - destruct (re.match_here _ _ (String c x +:+ next) pos) as [m|] eqn:E';
      [|done].
    exfalso. apply match_here_marker in E' as (d & rest & Hd & Heq & _).
    destruct (decide (String.length (marker d) <= String.length (String c x)))
      as [Hle|Hgt].
    + destruct (append_prefix _ _ _ _ Heq Hle) as [e He].
      by rewrite (match_here_marker_match _ pos _ _ Hd He) in E.
    + apply (no_marker_inside d rest (String.length (String c x)) Hd).
      { simpl in *. lia. }
      by rewrite <- Heq, drop_append.
Qed.

Lemma match_here_empty pos :
  re.match_here re.no_flags chunk_pattern EmptyString pos = None.
Proof.
  destruct (re.match_here _ _ _ _) as [m|] eqn:E; [|done].
  apply match_here_marker in E as (d & rest & _ & Heq & _).
  unfold marker, marker_head in Heq. by rewrite append_cons in Heq.
Qed.

Lemma search_from_before_marker s next pos :
  starts_with_marker next ->
  re.search_from re.no_flags chunk_pattern (s +:+ next) pos
  = match re.search_from re.no_flags chunk_pattern s pos with
    | Some m => Some m
    | None =>
        re.search_from re.no_flags chunk_pattern next (pos + String.length s)
    end.
Proof.
  intros Hnext. revert pos. induction s as [|c s IH]; intros pos.
  - rewrite append_empty_l. cbn [re.search_from String.length].
    by rewrite match_here_empty, Nat.add_0_r.
  - rewrite append_cons. cbn [re.search_from].
    rewrite <- append_cons, (match_here_before_marker _ _ _ _ Hnext).
    destruct (re.match_here _ _ (String c s) pos); [done|].
    rewrite IH. cbn [String.length].
    by replace (pos + S (String.length s)) with (S pos + String.length s) by lia.
Qed.

Lemma drop_append_le k s t :
  k <= String.length s -> Str.drop k (s +:+ t) = Str.drop k s +:+ t.
Proof.
  revert s. induction k as [|k IH]; intros s Hk; [by destruct s|].
  destruct s as [|c s]; [simpl in Hk; lia|].
  rewrite append_cons. cbn [Str.drop]. apply IH. simpl in Hk. lia.
Qed.

Lemma finditer_from_before_marker fuel s next pos :
  starts_with_marker next ->
  String.length (s +:+ next) < fuel ->
  re.finditer_from fuel re.no_flags chunk_pattern (s +:+ next) pos
  = re.finditer_from fuel re.no_flags chunk_pattern s pos
    ++ re.finditer_from fuel re.no_flags chunk_pattern next
         (pos + String.length s).
Proof.
  intros Hnext. revert s pos.
  induction fuel as [|fuel IH]; intros s pos Hfuel; [lia|].
  rewrite length_append in Hfuel.
  cbn [re.finditer_from]. rewrite (search_from_before_marker _ _ _ Hnext).
  destruct (re.search_from re.no_flags chunk_pattern s pos) as [m|] eqn:E.
  - apply search_from_marker in E as (pre & d & rest & Hd & -> & ->).
    pose proof (marker_length d). cbn [marker_match re.m_end].
    rewrite !length_append in Hfuel.
    rewrite <- app_comm_cons. f_equal.
    rewrite drop_append_le by (rewrite !length_append; lia).
    rewrite IH by (rewrite length_append, length_drop, !length_append; lia).
    f_equal. rewrite length_drop, !length_append.
    replace (pos + String.length pre + String.length (marker d) +
             (String.length pre + (String.length (marker d) + String.length rest) -
              (pos + String.length pre + String.length (marker d) - pos)))
      with (pos + (String.length pre
                   + (String.length (marker d) + String.length rest))) by lia.
    exact (finditer_from_fuel fuel (S fuel) next _ ltac:(lia) ltac:(lia)).
  - rewrite app_nil_l. cbn [re.finditer_from].
    destruct (re.search_from re.no_flags chunk_pattern next _) as [m|] eqn:E';
      [|done].
    f_equal. apply search_from_marker in E' as (pre & d & rest & Hd & -> & ->).
    cbn [marker_match re.m_end].
    replace (pos + String.length s + String.length pre + String.length (marker d)
             - pos)
      with (String.length s
            + (pos + String.length s + String.length pre
               + String.length (marker d) - (pos + String.length s))) by lia.
    by rewrite drop_drop, drop_append.
Qed.

Lemma markers_append text next :
  starts_with_marker next ->
  markers (text +:+ next)
  = markers text ++ (shift (String.length text) <$> markers next).
Proof.
  intros Hnext. unfold markers, re.finditer.
  rewrite (finditer_from_before_marker _ _ _ _ Hnext) by lia.
  rewrite length_append. f_equal.
  - apply finditer_from_fuel; lia.
  - rewrite finditer_from_shift. f_equal. apply finditer_from_fuel; lia.
Qed.

Lemma substring_zero a s : String.substring a 0 s = EmptyString.
Proof.
  revert a. induction s as [|c s IH]; intros [|a]; try done. apply IH.
Qed.

Lemma substring_append_l a n s t :
  a + n <= String.length s ->
  String.substring a n (s +:+ t) = String.substring a n s.
Proof.
  revert a n. induction s as [|c s IH]; intros a n Hle.
  - simpl in Hle. assert (a = 0) as -> by lia. assert (n = 0) as -> by lia.
    rewrite append_empty_l. by rewrite substring_zero.
  - rewrite append_cons. simpl in Hle. destruct a as [|a].
    + destruct n as [|n]; [done|]. cbn [String.substring]. f_equal.
      apply IH. lia.
    + cbn [String.substring]. apply IH. lia.
Qed.

Lemma substring_append_r a n s t :
  String.substring (String.length s + a) n (s +:+ t) = String.substring a n t.
Proof.
  induction s as [|c s IH]; [by rewrite append_empty_l|].
  rewrite append_cons. cbn [String.length Nat.add String.substring]. exact IH.
Qed.

Lemma slice_append_l s t a b :
  b <= String.length s -> Str.slice (s +:+ t) a b = Str.slice s a b.
Proof.
  intros Hb. unfold Str.slice. destruct (decide (a <= b)) as [Hab|Hab].
  - apply substring_append_l. lia.
  - replace (b - a) with 0 by lia. by rewrite !substring_zero.
Qed.

Lemma slice_append_r s t a b :
  Str.slice (s +:+ t) (String.length s + a) (String.length s + b)
  = Str.slice t a b.
Proof.
  unfold Str.slice.
  replace (String.length s + b - (String.length s + a)) with (b - a) by lia.
  apply substring_append_r.
Qed.

Lemma marker_inside full_text m :
  m ∈ markers full_text ->
  re.m_start m < re.m_end m <= String.length full_text.
Proof.
  intros Hm. destruct (markers_spec full_text) as (H & _ & _).
  destruct (H m Hm) as (d & rest & Hd & Hdrop & -> & _).
  pose proof (marker_length d).
  apply (f_equal String.length) in Hdrop.
  rewrite length_drop, length_append in Hdrop. lia.
Qed.

Lemma markers_first next :
  starts_with_marker next ->
  exists m ms, markers next = m :: ms /\ re.m_start m = 0.
Proof.
  intros (d & rest & Hd & Heq). unfold markers, re.finditer.
  cbn [re.finditer_from].
  rewrite (search_from_here _ _ _ _ _ (match_here_marker_match _ 0 _ _ Hd Heq)).
  by eexists _, _.
Qed.

Lemma segments_append text next :
  starts_with_marker next ->
  segments (text +:+ next) = segments text ++ segments next.
Proof.
  intros Hnext. unfold segments. rewrite (markers_append _ _ Hnext).
  rewrite imap_app. f_equal.
  - apply imap_ext. intros i m Hm. unfold segment_of, chunk_text_of.
    do 2 f_equal.
    assert (re.m_end m <= String.length text) as Hend.
    { apply (marker_inside text m). by eapply list_elem_of_lookup_2. }
    destruct (markers text !! (i + 1)) as [next_m|] eqn:E.
    + rewrite (lookup_app_l_Some _ _ _ _ E).
      apply slice_append_l.
      assert (next_m ∈ markers text) as Hin by (by eapply list_elem_of_lookup_2).
      apply marker_inside in Hin. lia.
    + apply lookup_ge_None in E.
      assert (i + 1 = length (markers text)) as Hlast.
      { apply lookup_lt_Some in Hm. lia. }
      rewrite lookup_app_r by lia. rewrite Hlast, Nat.sub_diag.
      destruct (markers_first _ Hnext) as (m0 & ms & -> & Hm0).
      cbn. rewrite Hm0, Nat.add_0_r. by apply slice_append_l.
  - rewrite imap_fmap. apply imap_ext. intros j m Hm.
    unfold compose, segment_of, chunk_text_of. cbn [shift re.m_groups re.m_end].
    do 2 f_equal.
    rewrite lookup_app_r by lia.
    replace (length (markers text) + j + 1 - length (markers text))
      with (j + 1) by lia.
    rewrite list_lookup_fmap.
    destruct (markers next !! (j + 1)) as [next_m|]; cbn.
    + apply slice_append_r.
    + rewrite length_append. apply slice_append_r.
Qed.

Lemma kg_concat_app (l1 l2 : list kg_data) :
  kg_concat (l1 ++ l2) = kg_app (kg_concat l1) (kg_concat l2).
Proof.
  unfold kg_concat, kg_app. cbn. by rewrite !fmap_app, !concat_app.
Qed.

Lemma extracted_append text next :
  starts_with_marker next ->
  extracted (text +:+ next) = kg_app (extracted text) (extracted next).
Proof.
  intros Hnext. unfold extracted, processed.
  rewrite (segments_append _ _ Hnext), List.filter_app, fmap_app.
  apply kg_concat_app.
Qed.

Lemma extracted_without_marker text :
  (forall p, ~ starts_with_marker (Str.drop p text)) ->
  extracted text = empty_kg.
Proof.
  intros Hno. unfold extracted, processed, segments.
  assert (markers text = []) as ->; [|done].
  destruct (markers_spec text) as (_ & Hpos & _).
  apply no_elements. intros m Hm.
  apply (Hno (re.m_start m)), Hpos, list_elem_of_fmap. by exists m.
Qed.

Lemma integrity_violation_app (a b : kg_data) :
  ~ integrity_violation a -> ~ integrity_violation b ->
  ~ integrity_violation (kg_app a b).
Proof.
  unfold integrity_violation, kg_app. cbn. intros Ha Hb.
  rewrite !Exists_app. intros [[H|H]|[[H|H]|H]]; try tauto.
  apply app_eq_nil in H as [H _]. tauto.
Qed.

(** X10.  Parsing composes: for a text followed by a text that starts with
    a marker, the segments are those of the first followed by those of the
    second, and so are the three sequences; when both texts parse, so does
    their concatenation, into the two payloads one after the other.  What
    precedes the first marker of a text counts for nothing. *)
Theorem parse_of_concatenation (text next : string) :
  starts_with_marker next ->
  segments (text +:+ next) = segments text ++ segments next
  /\ extracted (text +:+ next) = kg_app (extracted text) (extracted next)
  /\ (forall payload payload',
        result_of (parse_kg_from_txt text) = inr payload ->
        result_of (parse_kg_from_txt next) = inr payload' ->
        result_of (parse_kg_from_txt (text +:+ next))
        = inr (kg_app payload payload'))
  /\ ((forall p, ~ starts_with_marker (Str.drop p text)) ->
      result_of (parse_kg_from_txt (text +:+ next))
      = result_of (parse_kg_from_txt next)).
Proof.
  intros Hnext. split; [by apply segments_append|].
  split; [by apply extracted_append|]. split.
  - intros payload payload' [-> Hok]%parse_payload [-> Hok']%parse_payload.
    rewrite parse_kg_from_txt_result, (extracted_append _ _ Hnext).
    pose proof (integrity_violation_app _ _ Hok Hok') as H.
    set (kg := kg_app (extracted text) (extracted next)) in *.
    destruct kg as [es rs cs]. cbn [entities relationships chunks].
    by rewrite (proj2 (validate_kg_data_returns_iff es rs cs) H).
  - intros Hno. rewrite !parse_kg_from_txt_result.
    rewrite (extracted_append _ _ Hnext), (extracted_without_marker _ Hno).
    by destruct (extracted next).
Qed.

Lemma parse_of_concatenation_witness :
  segments ("preamble " +:+ scenario_text)
  = segments "preamble " ++ segments scenario_text.
Proof.
  apply (parse_of_concatenation "preamble " scenario_text).
  exists "1"%string. eexists. split; [done|]. reflexivity.
Defined.

(** ** Sessions, blank lines and exports *)

Section Log.
Variable json_dumps : RetrievalResult.t -> string.
Variable json_loads : string -> option RetrievalResult.t.
Variable json_dumps_indented : RetrievalResult.t -> string.
Variable self : RetrievalLogger.t.

Lemma written_app records1 records2 :
  written json_dumps (records1 ++ records2)
  = written json_dumps records1 +:+ written json_dumps records2.
Proof.
  induction records1 as [|r rs IH]; [by rewrite append_empty_l|].
  simpl. by rewrite IH, !append_assoc.
Qed.

Lemma log_all_frame records fs :
  exists fs',
    result_of (for_each records (RetrievalLogger.log_retrieval json_dumps self) fs)
    = inr fs'
    /\ (forall path, path <> RetrievalLogger.log_file self ->
          fs' !! path = fs !! path)
    /\ (records <> [] ->
        fs' !! RetrievalLogger.log_file self
        = Some (default EmptyString (fs !! RetrievalLogger.log_file self)
                +:+ written json_dumps records)).
Proof.
  destruct (log_all_result json_dumps self records fs) as (fs' & Hres & Hfs').
  exists fs'. split; [done|]. split; [|by destruct records].
  clear Hfs'. revert fs fs' Hres. induction records as [|r rs IH]; intros fs fs'.
  - cbn [for_each]. rewrite mret_eq. by intros [= ->].
  - rewrite for_each_cons, log_retrieval_eq, result_bind. cbn [result_of snd].
    intros Hres path Hpath. rewrite (IH _ _ Hres path Hpath).
    by apply lookup_insert_ne.
Qed.


Lemma readlines_log_text lines :
  Forall (well_formed_line json_dumps json_loads) lines ->
  readlines (log_text json_dumps lines) = log_line_text json_dumps <$> lines.
Proof.
  induction 1 as [|line lines Hline _ IH]; [done|].
  cbn [log_text foldr fmap list_fmap]. fold (log_text json_dumps lines).
  destruct line as [r|w]; cbn [log_line_text]; rewrite append_assoc.
  - destruct Hline as (Hone & _). by rewrite (readlines_line _ _ Hone), IH.
  - destruct Hline as (_ & Hone). by rewrite (readlines_line _ _ Hone), IH.
Qed.

Lemma strip_blank_line w : white w -> Str.strip (w +:+ linefeed) = EmptyString.
Proof.
  intros Hw. unfold Str.strip.
  rewrite (lstrip_white w linefeed Hw). done.
Qed.

Lemma read_results_log_text lines results :
  Forall (well_formed_line json_dumps json_loads) lines ->
  RetrievalLogger.read_results json_loads
    (log_line_text json_dumps <$> lines) results
  = Some (results ++ records_of lines).
Proof.
  intros H. revert results.
  induction H as [|line lines Hline _ IH]; intros results.
  - simpl. by rewrite app_nil_r.
  - cbn [fmap list_fmap RetrievalLogger.read_results].
    destruct line as [r|w]; cbn [log_line_text].
    + destruct Hline as (Hone & Hne & Hload).
      assert (Str.strip (json_dumps r +:+ linefeed) = Str.strip (json_dumps r))
        as ->.
      { by rewrite <- (strip_padded EmptyString (json_dumps r) linefeed). }
      destruct (Str.strip (json_dumps r)); [done|]. cbn [falsy].
      rewrite Hload.
      change (records_of (inl r :: lines)) with (r :: records_of lines).
      rewrite IH. by rewrite <- app_assoc.
    + destruct Hline as (Hw & _). rewrite (strip_blank_line _ Hw).
      cbn [falsy]. apply IH.
Qed.

Lemma load_logs_log_text log_file_arg fs lines :
  fs !! RetrievalLogger.file_path_of self log_file_arg
  = Some (log_text json_dumps lines) ->
  Forall (well_formed_line json_dumps json_loads) lines ->
  RetrievalLogger.load_logs json_loads self log_file_arg fs
  = ([(INFO, loaded_results (length (records_of lines))
              (RetrievalLogger.file_path_of self log_file_arg))],
     inr (records_of lines)).
Proof.
  intros Hfile Hlines. unfold RetrievalLogger.load_logs. rewrite Hfile.
  rewrite (readlines_log_text _ Hlines), (read_results_log_text _ [] Hlines).
  rewrite app_nil_l. by rewrite bind_logger, mret_eq.
Qed.

(** X12.  Blank lines in a log do not count: a file made of the lines of
    records and of lines of white space, in any order, loads as the records,
    in order. *)
Theorem load_logs_skips_blank_lines (log_file_arg : option string)
    (fs : files) (lines : list (RetrievalResult.t + string)) :
  fs !! RetrievalLogger.file_path_of self log_file_arg
  = Some (log_text json_dumps lines) ->
  Forall (well_formed_line json_dumps json_loads) lines ->
  RetrievalLogger.load_logs json_loads self log_file_arg fs
  = ([(INFO, loaded_results (length (records_of lines))
              (RetrievalLogger.file_path_of self log_file_arg))],
     inr (records_of lines)).
Proof. apply load_logs_log_text. Qed.

Lemma log_text_app lines1 lines2 :
  log_text json_dumps (lines1 ++ lines2)
  = log_text json_dumps lines1 +:+ log_text json_dumps lines2.
Proof.
  induction lines1 as [|l ls IH]; [by rewrite append_empty_l|].
  cbn [app log_text foldr]. fold (log_text json_dumps (ls ++ lines2)).
  fold (log_text json_dumps ls). by rewrite IH, !append_assoc.
Qed.

Lemma log_text_records records :
  log_text json_dumps (inl <$> records) = written json_dumps records.
Proof.
  induction records as [|r rs IH]; [done|].
  cbn [fmap list_fmap log_text foldr log_line_text written].
  fold (log_text json_dumps (inl <$> rs)). fold (written json_dumps rs).
  by rewrite IH, !append_assoc.
Qed.

Lemma records_of_app lines1 lines2 :
  records_of (lines1 ++ lines2) = records_of lines1 ++ records_of lines2.
Proof. unfold records_of. apply omap_app. Qed.

Lemma records_of_records (records : list RetrievalResult.t) :
  records_of (inl <$> records) = records.
Proof.
  induction records as [|r rs IH]; [done|].
  rewrite fmap_cons. change (records_of (inl r :: (inl <$> rs)))
    with (r :: records_of (inl <$> rs)). by rewrite IH.
Qed.

(** X13.  Logging to a session file that already holds a log adds to it:
    loading then returns the records that the file held, followed by the new
    ones, in the order of the calls. *)
Theorem log_then_load_extends_the_log (fs : files)
    (lines : list (RetrievalResult.t + string))
    (records : list RetrievalResult.t) :
  fs !! RetrievalLogger.log_file self = Some (log_text json_dumps lines) ->
  Forall (well_formed_line json_dumps json_loads) lines ->
  Forall (reads_back json_dumps json_loads) records ->
  exists fs',
    result_of (for_each records (RetrievalLogger.log_retrieval json_dumps self) fs)
    = inr fs'
    /\ result_of (RetrievalLogger.load_logs json_loads self None fs')
       = inr (records_of lines ++ records).
Proof.
  intros Hfile Hlines Hrecords.
  destruct (log_all_frame records fs) as (fs' & Hres & _ & Hfs').
  exists fs'. split; [done|].
  assert (fs' !! RetrievalLogger.log_file self
          = Some (log_text json_dumps (lines ++ (inl <$> records)))) as Hnew.
  { rewrite log_text_app, log_text_records. destruct records as [|r rs].
    - cbn [for_each] in Hres. rewrite mret_eq in Hres. injection Hres as <-.
      by rewrite Hfile, append_empty_r.
    - rewrite Hfs' by done. by rewrite Hfile. }
  rewrite (load_logs_log_text None fs' _ Hnew).
  - by rewrite records_of_app, records_of_records.
  - apply Forall_app. split; [done|]. by apply Forall_fmap.
Qed.




Lemma mode_total_count m mode :
  mode_total (<[mode := default 0 (m !! mode) + 1]> m) = mode_total m + 1.
Proof.
  unfold mode_total. destruct (m !! mode) as [x|] eqn:E; simpl.
  - rewrite <- insert_delete_eq.
    rewrite map_fold_insert_L; [|intros; lia|apply lookup_delete_eq].
    rewrite (map_fold_delete_L _ _ mode x m); [lia|intros; lia|done].
  - rewrite map_fold_insert_L; [lia|intros; lia|done].
Qed.

Lemma count_all_mode_total st results :
  mode_total (modes (count_all st results))
  = mode_total (modes st) + length results.
Proof.
  revert st. induction results as [|r rs IH]; intros st; simpl; [lia|].
  fold (count_all (count_result r st) rs). rewrite IH.
  cbn [count_result modes]. rewrite mode_total_count. lia.
Qed.

(** X14.  The statistics are consistent: there is at least one query, the
    counts of the modes add up to the number of queries, and the queries
    without results are among them. *)
Theorem statistics_add_up (log_file_arg : option string) (fs : files)
    (stats : statistics) :
  result_of (RetrievalLogger.get_statistics json_loads self log_file_arg fs)
  = inr (Some stats) ->
  0 < total_queries stats
  /\ mode_total (mode_distribution stats) = total_queries stats
  /\ queries_with_no_results stats <= total_queries stats.
Proof.
  unfold RetrievalLogger.get_statistics. rewrite result_bind.
  destruct (load_logs_returns json_loads self log_file_arg fs) as [results ->].
  destruct (is_empty results) eqn:E; rewrite mret_eq; [done|].
  cbn [result_of snd]. intros [= <-].
  cbn [total_queries mode_distribution queries_with_no_results].
  fold (count_all no_totals results).
  rewrite count_all_mode_total.
  destruct (count_all_sums no_totals results) as (_ & _ & _ & ->).
  cbn [no_totals modes no_results]. unfold mode_total at 1.
  rewrite map_fold_empty.
  destruct (filter_split_length holds_nothing results) as [_ H].
  split; [destruct results; [done|simpl; lia]|]. split; [done|].
  exact H.
Qed.













End Log.

Lemma spaced_lines_well_formed :
  Forall (well_formed_line sample_dumps sample_loads) spaced_lines.
Proof.
  repeat constructor; try reflexivity; by vm_compute.
Defined.


Lemma load_logs_skips_blank_lines_witness :
  RetrievalLogger.load_logs sample_loads sample_logger None spaced_files
  = ([(INFO, loaded_results 2 "retrieval_logs/retrieval_log_1700000000.jsonl")],
     inr [sample_result_1; sample_result_2]).
Proof.
  exact (load_logs_skips_blank_lines sample_dumps sample_loads sample_logger
           None spaced_files spaced_lines eq_refl spaced_lines_well_formed).
Defined.

Lemma log_then_load_extends_the_log_witness :
  exists fs',
    result_of (for_each [sample_result_2]
                 (RetrievalLogger.log_retrieval sample_dumps sample_logger)
                 spaced_files)
    = inr fs'
    /\ result_of (RetrievalLogger.load_logs sample_loads sample_logger None fs')
       = inr ([sample_result_1; sample_result_2] ++ [sample_result_2]).
Proof.
  apply (log_then_load_extends_the_log sample_dumps sample_loads sample_logger
           spaced_files spaced_lines [sample_result_2]).
  - reflexivity.
  - exact spaced_lines_well_formed.
  - repeat constructor; try reflexivity; by vm_compute.
Defined.



Lemma statistics_add_up_witness :
  exists stats,
    result_of (RetrievalLogger.get_statistics sample_loads sample_logger None
                 sample_files)
    = inr (Some stats)
    /\ 0 < total_queries stats
    /\ mode_total (mode_distribution stats) = total_queries stats
    /\ queries_with_no_results stats <= total_queries stats.
Proof.
  assert (exists stats,
            result_of (RetrievalLogger.get_statistics sample_loads sample_logger
                         None sample_files)
            = inr (Some stats)) as [stats Hs].
  { vm_compute. eexists. reflexivity. }
  exists stats. split; [exact Hs|].
  exact (statistics_add_up sample_loads sample_logger None sample_files stats Hs).
Defined.

(** ** One file for each session *)

Lemma to_int_not_nil (z : Z) :
  Z.to_int z <> Decimal.Pos Decimal.Nil /\ Z.to_int z <> Decimal.Neg Decimal.Nil.
Proof.
  destruct z as [|p|p]; cbn [Z.to_int]; split; try done;
    intros [= H]; by apply (DecimalPos.Unsigned.to_uint_nonnil p).
Qed.

Lemma session_number_text_inj (a b : Z) :
  NilZero.string_of_int (Z.to_int a) = NilZero.string_of_int (Z.to_int b) ->
  a = b.
Proof.
  intros H. apply DecimalZ.to_int_inj.
  destruct (to_int_not_nil a) as [Ha Ha'], (to_int_not_nil b) as [Hb Hb'].
  pose proof (NilZero.isi _ Ha Ha') as E. rewrite H in E.
  rewrite (NilZero.isi _ Hb Hb') in E. by injection E.
Qed.

Section Sessions.
Variable json_dumps : RetrievalResult.t -> string.

(** X17.  Two loggers of one directory write to one file exactly when their
    session numbers are equal; logging through one of them leaves the
    session file of every other session as it was. *)
Theorem sessions_have_their_own_log_file (self other : RetrievalLogger.t)
    (records : list RetrievalResult.t) (fs : files) :
  RetrievalLogger.log_dir self = RetrievalLogger.log_dir other ->
  (RetrievalLogger.log_file self = RetrievalLogger.log_file other
   <-> RetrievalLogger.session_id self = RetrievalLogger.session_id other)
  /\ (RetrievalLogger.session_id self <> RetrievalLogger.session_id other ->
      exists fs',
        result_of (for_each records
                     (RetrievalLogger.log_retrieval json_dumps self) fs)
        = inr fs'
        /\ fs' !! RetrievalLogger.log_file other
           = fs !! RetrievalLogger.log_file other).
Proof.
  intros Hdir.
  assert (RetrievalLogger.log_file self = RetrievalLogger.log_file other
          <-> RetrievalLogger.session_id self = RetrievalLogger.session_id other)
    as Hfile.
  { unfold RetrievalLogger.log_file. rewrite Hdir. split.
    - intros H%append_inv_head%append_inv_head%append_inv_tail.
      by apply session_number_text_inj.
    - by intros ->. }
  split; [done|]. intros Hne.
  destruct (log_all_frame json_dumps self records fs) as (fs' & Hres & Hframe & _).
  exists fs'. split; [done|]. apply Hframe. intros H. by apply Hne, Hfile.
Qed.

End Sessions.

Lemma sessions_have_their_own_log_file_witness :
  exists fs',
    result_of (for_each [sample_result_1]
                 (RetrievalLogger.log_retrieval sample_dumps sample_logger)
                 sample_files)
    = inr fs'
    /\ fs' !! RetrievalLogger.log_file next_logger
       = sample_files !! RetrievalLogger.log_file next_logger.
Proof.
  apply (proj2 (sessions_have_their_own_log_file sample_dumps sample_logger
                  next_logger [sample_result_1] sample_files eq_refl)).
  discriminate.
Defined.
